(** * Sub-issue family aggregation: a shallow embedding of the Go program

    The program lists the closed root issues of a GitHub project, fetches the
    sub-issues of every root recursively ([fetchSubIssuesRecursively],
    [enrichIssuesWithSubIssues]), checks every issue against the labelling
    rules ([checkRuleViolations], [checkIssueRuleViolation]) and sums the
    estimated and actual hours of the descendants of every root
    ([sumSubIssueTimeAndViolations], [calculateIssueSummaries]).

    Go's [float64] is the kernel's binary64 [float]; Go's [int] is [Z] with the
    64-bit wrap-around written out ([wrapInt]); strings are byte strings, as
    in Go.  The GraphQL transport is a function from a request to its answer,
    and every request and log line of the builder is recorded in a trace. *)

From Stdlib Require Import ZArith List String Ascii Bool Lia Floats.
Import ListNotations.

Set Warnings "-register-all".

Local Open Scope Z_scope.
Local Open Scope list_scope.

(** ** Go's [int] *)

Definition wrapInt (z : Z) : Z := (z + 2 ^ 63) mod 2 ^ 64 - 2 ^ 63.

Definition is_int (z : Z) : Prop := - 2 ^ 63 <= z < 2 ^ 63.

(** ** The parts of Go's [strings], [strconv] and [time] the program calls *)

Module GoStrings.

(** [strings.Split(s, sep)] for a separator of one byte. *)
Fixpoint Split (s : string) (sep : ascii) : list string :=
  match s with
  | EmptyString => [EmptyString]
  | String c rest =>
      if Ascii.eqb c sep then EmptyString :: Split rest sep
      else match Split rest sep with
           | [] => [String c EmptyString]
           | part :: parts => String c part :: parts
           end
  end.

(** [strings.Join(elems, sep)]. *)
Definition Join (elems : list string) (sep : string) : string :=
  String.concat sep elems.

Definition digit (c : ascii) : option Z :=
  let n := Z.of_nat (nat_of_ascii c) in
  if (48 <=? n) && (n <=? 57) then Some (n - 48) else None.

Fixpoint digits (s : string) (acc : Z) : option Z :=
  match s with
  | EmptyString => Some acc
  | String c rest =>
      match digit c with
      | Some d => digits rest (acc * 10 + d)
      | None => None
      end
  end.

(** [strconv.Atoi]: an optional sign, at least one decimal digit, and a
    value that fits Go's 64-bit [int]; [None] is the error result. *)
Definition Atoi (s : string) : option Z :=
  match s with
  | EmptyString => None
  | String c rest =>
      let neg := Ascii.eqb c "-" in
      let body := if neg || Ascii.eqb c "+" then rest else s in
      match body with
      | EmptyString => None
      | _ =>
          match digits body 0 with
          | Some n =>
              let v := if neg then - n else n in
              if (- 2 ^ 63 <=? v) && (v <? 2 ^ 63) then Some v else None
          | None => None
          end
      end
  end.

(** The lower-casing of the ASCII letters, which is what [strings.ToLower]
    does on a string of ASCII bytes. *)
Definition lowerByte (c : ascii) : ascii :=
  let n := nat_of_ascii c in
  if (Nat.leb 65 n && Nat.leb n 90)%bool then ascii_of_nat (n + 32) else c.

Fixpoint asciiToLower (s : string) : string :=
  match s with
  | EmptyString => EmptyString
  | String c rest => String (lowerByte c) (asciiToLower rest)
  end.

End GoStrings.

(** [time.Time]: an instant and the offset of the zone it is shown in. *)
Record GoTime : Type := mkTime { unixSeconds : Z; zoneOffset : Z }.

Definition jstOffset : Z := 9 * 60 * 60.

(** [t.In(jst)]: the same instant, shown in JST. *)
Definition In_jst (t : GoTime) : GoTime :=
  {| unixSeconds := unixSeconds t; zoneOffset := jstOffset |}.

(** ** The data model *)

Definition estimatedLabel : string := "見積時間".
Definition actualLabel : string := "実績時間".
Definition sizeLabel : string := "Size".

Inductive IssueTimeInfo : Type := mkIssue {
  IssueURL : string;
  Title : string;
  Author : string;
  Assignees : list string;
  CreatedAt : GoTime;
  ClosedAt : option GoTime;
  State : string;
  StateReason : string;
  EstimatedTime : float;
  ActualTime : float;
  Size : float;
  Labels : list string;
  HasParent : bool;
  SubIssues : list IssueTimeInfo
}.

Definition withSubIssues (issue : IssueTimeInfo) (subs : list IssueTimeInfo)
  : IssueTimeInfo :=
  mkIssue (IssueURL issue) (Title issue) (Author issue) (Assignees issue)
          (CreatedAt issue) (ClosedAt issue) (State issue) (StateReason issue)
          (EstimatedTime issue) (ActualTime issue) (Size issue) (Labels issue)
          (HasParent issue) subs.

Definition withSize (issue : IssueTimeInfo) (size : float) : IssueTimeInfo :=
  mkIssue (IssueURL issue) (Title issue) (Author issue) (Assignees issue)
          (CreatedAt issue) (ClosedAt issue) (State issue) (StateReason issue)
          (EstimatedTime issue) (ActualTime issue) size (Labels issue)
          (HasParent issue) (SubIssues issue).

Record RuleViolation : Type := mkViolation {
  vIssueURL : string;
  vTitle : string;
  vAssignees : list string;
  vAuthor : string;
  vReason : string
}.

Record IssueSummary : Type := mkSummary {
  sIssueURL : string;
  sTitle : string;
  sSize : float;
  TotalEstimated : float;
  TotalActual : float;
  SubIssueCount : Z;
  HasRuleViolation : bool;
  Violations : list string
}.

(** Induction over an issue: the property holds of every sub-issue. *)
Fixpoint issue_ind' (P : IssueTimeInfo -> Prop)
    (H : forall issue, Forall P (SubIssues issue) -> P issue)
    (issue : IssueTimeInfo) {struct issue} : P issue :=
  H issue
    ((fix go (l : list IssueTimeInfo) : Forall P l :=
        match l with
        | [] => Forall_nil P
        | sub :: rest => Forall_cons sub (issue_ind' P H sub) (go rest)
        end) (SubIssues issue)).

(** The number of issues of a tree and of a forest. *)
Fixpoint issueSize (issue : IssueTimeInfo) : Z :=
  1 + fold_right (fun sub n => issueSize sub + n) 0 (SubIssues issue).

Definition forestSize (l : list IssueTimeInfo) : Z :=
  fold_right (fun sub n => issueSize sub + n) 0 l.

(** A family: the root and every descendant. *)
Definition familySize (root : IssueTimeInfo) : Z := issueSize root.

(** The number of levels of a tree and of a forest. *)
Fixpoint issueHeight (issue : IssueTimeInfo) : nat :=
  S (fold_right (fun sub n => Nat.max (issueHeight sub) n) O (SubIssues issue)).

Definition forestHeight (l : list IssueTimeInfo) : nat :=
  fold_right (fun sub n => Nat.max (issueHeight sub) n) O l.

(** [P] holds of the issue and of every descendant. *)
Fixpoint issueAll (P : IssueTimeInfo -> Prop) (issue : IssueTimeInfo) : Prop :=
  P issue /\ fold_right (fun sub rest => issueAll P sub /\ rest) True (SubIssues issue).

Definition forestAll (P : IssueTimeInfo -> Prop) (l : list IssueTimeInfo) : Prop :=
  fold_right (fun sub rest => issueAll P sub /\ rest) True l.

(** The URLs of a tree, the parent before its children. *)
Fixpoint issueURLs (issue : IssueTimeInfo) : list string :=
  IssueURL issue :: fold_right (fun sub rest => issueURLs sub ++ rest) [] (SubIssues issue).

Definition forestURLs (l : list IssueTimeInfo) : list string :=
  fold_right (fun sub rest => issueURLs sub ++ rest) [] l.

(** ** Rule validation and aggregation

    [strings.ToLower] is Go's Unicode lower-casing; the rules only compare its
    results, so it is kept as a variable of the section. *)

Section Rules.

Variable ToLower : string -> string.

Definition containsLabelCaseInsensitive (labels : list string) (target : string)
  : bool :=
  let targetLower := ToLower target in
  (fix loop (labels : list string) : bool :=
     match labels with
     | [] => false
     | label :: rest =>
         if String.eqb (ToLower label) targetLower then true else loop rest
     end) labels.

Definition getIssueNumberFromURL (url : string) : string :=
  let parts := GoStrings.Split url "/" in
  if (0 <? Z.of_nat (List.length parts)) then last parts EmptyString
  else "unknown"%string.

Definition hasPBI (issue : IssueTimeInfo) : bool :=
  containsLabelCaseInsensitive (Labels issue) "pbi"
  || containsLabelCaseInsensitive (Labels issue) "dev-pbi".

Definition hasSBI (issue : IssueTimeInfo) : bool :=
  containsLabelCaseInsensitive (Labels issue) "sbi"
  || containsLabelCaseInsensitive (Labels issue) "dev-sbi".

Definition difficultyLabels : list string :=
  ["difficulty:low"; "difficulty:medium"; "difficulty:high"]%string.

(** The loop over [difficultyLabels] that stops at the first label found. *)
Definition hasDifficultyLabel (issue : IssueTimeInfo) : bool :=
  (fix loop (ls : list string) : bool :=
     match ls with
     | [] => false
     | label :: rest =>
         if containsLabelCaseInsensitive (Labels issue) label then true
         else loop rest
     end) difficultyLabels.

(** The [missingFields] slice of both validators. *)
Definition missingFields (issue : IssueTimeInfo) : list string :=
  let missing := [] in
  let missing :=
    if (EstimatedTime issue <? 0)%float then missing ++ [estimatedLabel]
    else missing in
  let missing :=
    if (ActualTime issue <? 0)%float then missing ++ [actualLabel]
    else missing in
  missing.

(** *** [checkIssueRuleViolation]: the validator of the aggregator *)

Definition sizeMessage (issue : IssueTimeInfo) : string :=
  ("Issue #" ++ getIssueNumberFromURL (IssueURL issue)
     ++ ": pbi/dev-pbiラベルがありますがSizeが設定されていません")%string.

Definition fieldsMessage (issue : IssueTimeInfo) : string :=
  ("Issue #" ++ getIssueNumberFromURL (IssueURL issue)
     ++ ": sbi/dev-sbiラベルがありますが"
     ++ GoStrings.Join (missingFields issue) "と"
     ++ "が設定されていません")%string.

Definition difficultyMessage (issue : IssueTimeInfo) : string :=
  ("Issue #" ++ getIssueNumberFromURL (IssueURL issue)
     ++ ": 難易度ラベル(difficulty:low/medium/high)が設定されていません")%string.

Definition checkIssueRuleViolation (issue : IssueTimeInfo) : list string :=
  let violations := [] in
  let violations :=
    if hasPBI issue && (Size issue <? 0)%float
    then violations ++ [sizeMessage issue] else violations in
  if hasSBI issue then
    let violations :=
      if (0 <? Z.of_nat (List.length (missingFields issue)))
      then violations ++ [fieldsMessage issue] else violations in
    let violations :=
      if negb (hasDifficultyLabel issue)
      then violations ++ [difficultyMessage issue] else violations in
    violations
  else violations.

(** *** [checkRuleViolations]: the validator of the violation report *)

Definition pbiReason : string :=
  "pbi/dev-pbiラベルが付いているがSizeが設定されていません".

Definition sbiReason (issue : IssueTimeInfo) : string :=
  ("sbi/dev-sbiラベルが付いていますが、"
     ++ GoStrings.Join (missingFields issue) "と" ++ "が設定されていません")%string.

Definition difficultyReason : string :=
  "難易度ラベル(difficulty:low/medium/high)が設定されていません".

(** The variable [reason] of [checkRecursively] when the checks are done. *)
Definition violationReason (issue : IssueTimeInfo) : string :=
  let reason := EmptyString in
  let reason :=
    if hasPBI issue && (Size issue <? 0)%float then pbiReason else reason in
  if hasSBI issue then
    let reason :=
      if (0 <? Z.of_nat (List.length (missingFields issue)))
      then sbiReason issue else reason in
    let reason :=
      if negb (hasDifficultyLabel issue)
      then ((if negb (String.eqb reason EmptyString)
             then reason ++ "。また、" else reason) ++ difficultyReason)%string
      else reason in
    reason
  else reason.

(** The violation [checkRecursively] records for the issue itself. *)
Definition ownViolation (issue : IssueTimeInfo) : option RuleViolation :=
  let reason := violationReason issue in
  if negb (String.eqb reason EmptyString) then
    let responsible := Assignees issue in
    let responsible :=
      if (Z.of_nat (List.length responsible) =? 0) then [Author issue]
      else responsible in
    Some {| vIssueURL := IssueURL issue; vTitle := Title issue;
            vAssignees := responsible; vAuthor := Author issue;
            vReason := reason |}
  else None.

Fixpoint checkRecursively (issue : IssueTimeInfo)
    (violations : list RuleViolation) {struct issue} : list RuleViolation :=
  let violations :=
    match ownViolation issue with
    | Some v => violations ++ [v]
    | None => violations
    end in
  (fix loop (subs : list IssueTimeInfo) (violations : list RuleViolation) :=
     match subs with
     | [] => violations
     | subIssue :: rest => loop rest (checkRecursively subIssue violations)
     end) (SubIssues issue) violations.

Definition checkRuleViolations (issues : list IssueTimeInfo)
  : list RuleViolation :=
  fold_left (fun violations issue => checkRecursively issue violations)
            issues [].

(** *** The aggregator *)

Definition SumResult : Type := (Z * float * float * list string)%type.

(** The state of the loop of [sumSubIssueTimeAndViolations] before its
    first iteration. *)
Definition sumInit (subIssues : list IssueTimeInfo) : SumResult :=
  (Z.of_nat (List.length subIssues), 0%float, 0%float, []).

(** One iteration of the loop; [sub] is what the recursive call on the
    issue's own sub-issues returned. *)
Definition sumStep (acc : SumResult) (issue : IssueTimeInfo) (sub : SumResult)
  : SumResult :=
  let '(count, totalEstimated, totalActual, allViolations) := acc in
  let totalEstimated :=
    if hasSBI issue && (0 <=? EstimatedTime issue)%float
    then (totalEstimated + EstimatedTime issue)%float else totalEstimated in
  let totalActual :=
    if hasSBI issue && (0 <=? ActualTime issue)%float
    then (totalActual + ActualTime issue)%float else totalActual in
  let violations := checkIssueRuleViolation issue in
  let allViolations := allViolations ++ violations in
  let '(subCount, subEst, subAct, subViolations) := sub in
  (wrapInt (count + subCount), (totalEstimated + subEst)%float,
   (totalActual + subAct)%float, allViolations ++ subViolations).

Section SumLoop.
Variable recur : IssueTimeInfo -> SumResult.

Fixpoint sumLoop (subIssues : list IssueTimeInfo) (acc : SumResult)
  : SumResult :=
  match subIssues with
  | [] => acc
  | issue :: rest => sumLoop rest (sumStep acc issue (recur issue))
  end.
End SumLoop.

(** [sumSubIssueTimeAndViolations(issue.SubIssues)], the recursive call. *)
Fixpoint sumOfSubIssues (issue : IssueTimeInfo) : SumResult :=
  sumLoop sumOfSubIssues (SubIssues issue) (sumInit (SubIssues issue)).

Definition sumSubIssueTimeAndViolations (subIssues : list IssueTimeInfo)
  : SumResult :=
  sumLoop sumOfSubIssues subIssues (sumInit subIssues).

Definition summaryOf (issue : IssueTimeInfo) : IssueSummary :=
  let '(subIssueCount, totalEstimated, totalActual, violations) :=
    sumSubIssueTimeAndViolations (SubIssues issue) in
  let selfViolations := checkIssueRuleViolation issue in
  let allViolations := selfViolations ++ violations in
  {| sIssueURL := IssueURL issue; sTitle := Title issue;
     sSize := Size issue; TotalEstimated := totalEstimated;
     TotalActual := totalActual; SubIssueCount := subIssueCount;
     HasRuleViolation := (0 <? Z.of_nat (List.length allViolations));
     Violations := allViolations |}.

Definition calculateIssueSummaries (issues : list IssueTimeInfo)
  : list IssueSummary :=
  fold_left (fun summaries issue => summaries ++ [summaryOf issue]) issues [].

End Rules.

(** ** The family builder *)

(** A node of the [subIssues] connection of [SubIssueQueryResponse]. *)
Module Node.
Record FieldValue : Type := mkFieldValue {
  TypeName : string;
  FieldName : string;
  FieldNumber : option float
}.

Record t : Type := mk {
  Id : string;
  Number : Z;
  Title : string;
  State : string;
  StateReason : option string;
  AuthorLogin : string;
  Labels : list string;
  Assignees : list string;
  URL : string;
  CreatedAt : string;
  ClosedAt : option string;
  (** the field values of every project item *)
  ProjectItems : list (list FieldValue)
}.
End Node.

Record SubIssueQueryResponse : Type := mkResponse {
  Edges : list Node.t;
  HasNextPage : bool;
  EndCursor : option string
}.

(** [client.Execute] on the sub-issue query: the variables [owner], [repo],
    [issueNumber] and, when it is set, [cursor]; the answer is the error
    message or the decoded response.  The program reads one snapshot of the
    project: within a run a request has one answer. *)
Definition GraphQLClient : Type :=
  string -> string -> Z -> option string -> string + SubIssueQueryResponse.

Inductive FetchError : Type :=
| InvalidURLFormat (issueURL : string)
| InvalidIssueNumber (issueURL : string)
| ExecuteError (message : string).

(** What the builder does to the outside: the requests it sends and the lines
    it logs, in order. *)
Inductive Event : Type :=
| Request (owner repo : string) (issueNumber : Z) (cursor : option string)
| LogReachedMaxDepth (maxDepth : Z) (issueURL : string)
| LogSkipping (number : Z) (state stateReason : string)
| LogCreatedAtParseError (number : Z)
| LogClosedAtParseError (number : Z)
| LogFetching (number : Z) (depth : Z)
| LogWarningFetch (number : Z) (err : FetchError)
| LogTopLevelFetching (issueNumber title : string)
| LogTopLevelError (issueNumber : string) (err : FetchError).

Definition isRequest (e : Event) : bool :=
  match e with Request _ _ _ _ => true | _ => false end.

(** How a call ends: it returns, it dereferences a nil pointer, or the model
    ran out of fuel before it ended. *)
Inductive Outcome (A : Type) : Type :=
| Returned (a : A)
| Panicked
| OutOfFuel.
Arguments Returned {A} a.
Arguments Panicked {A}.
Arguments OutOfFuel {A}.

Definition M (A : Type) : Type := (list Event * Outcome A)%type.

Definition ret {A : Type} (a : A) : M A := ([], Returned a).

Definition emit (e : Event) : M unit := ([e], Returned tt).

Definition bind {A B : Type} (m : M A) (k : A -> M B) : M B :=
  match m with
  | (t, Returned a) => let (t', o) := k a in (t ++ t', o)
  | (t, Panicked) => (t, Panicked)
  | (t, OutOfFuel) => (t, OutOfFuel)
  end.

Notation "x <- m ;; k" := (bind m (fun x => k))
  (at level 61, m at next level, right associativity).
Notation "m ;;; k" := (bind m (fun _ => k))
  (at level 61, right associativity).

(** Go's pair of a result and an error. *)
Inductive GoResult (A : Type) : Type :=
| Ok (a : A)
| Err (e : FetchError).
Arguments Ok {A} a.
Arguments Err {A} e.

Definition isCompleted (subIssue : Node.t) : bool :=
  let stateReason :=
    match Node.StateReason subIssue with Some r => r | None => EmptyString end in
  String.eqb (Node.State subIssue) "CLOSED" && String.eqb stateReason "COMPLETED".

(** The loops over the project items and their field values. *)
Definition customFields (projectItems : list (list Node.FieldValue))
  : float * float * float :=
  fold_left
    (fun fields projectItem =>
       fold_left
         (fun '(estimatedTime, actualTime, size) fieldValue =>
            if String.eqb (Node.TypeName fieldValue) "ProjectV2ItemFieldNumberValue"
            then
              let fieldName := Node.FieldName fieldValue in
              match Node.FieldNumber fieldValue with
              | Some number =>
                  if String.eqb fieldName estimatedLabel
                  then (number, actualTime, size)
                  else if String.eqb fieldName actualLabel
                  then (estimatedTime, number, size)
                  else if String.eqb fieldName "Size"
                  then (estimatedTime, actualTime, number)
                  else (estimatedTime, actualTime, size)
              | None => (estimatedTime, actualTime, size)
              end
            else (estimatedTime, actualTime, size))
         projectItem fields)
    projectItems ((-1)%float, (-1)%float, (-1)%float).

(** The owner, the repository and the issue number [fetchSubIssuesRecursively]
    reads off the URL of the issue, or the error it returns. *)
Definition issueKey (issueURL : string) : GoResult (string * string * Z) :=
  let urlParts := GoStrings.Split issueURL "/" in
  if Z.of_nat (List.length urlParts) <? 7
  then Err (InvalidURLFormat issueURL)
  else
    let owner := nth 3 urlParts EmptyString in
    let repo := nth 4 urlParts EmptyString in
    match GoStrings.Atoi (nth 6 urlParts EmptyString) with
    | None => Err (InvalidIssueNumber issueURL)
    | Some issueNumber => Ok (owner, repo, issueNumber)
    end.

Section Builder.

(** [time.Parse(time.RFC3339, s)]; [None] is the error result. *)
Variable time_Parse : string -> option GoTime.
Variable client : GraphQLClient.

(** The [IssueTimeInfo] of a completed sub-issue whose times parse. *)
Definition subIssueInfo (subIssue : Node.t) (createdAtJST : GoTime)
    (closedAt : option GoTime) : IssueTimeInfo :=
  let stateReason :=
    match Node.StateReason subIssue with Some r => r | None => EmptyString end in
  let '(estimatedTime, actualTime, size) :=
    customFields (Node.ProjectItems subIssue) in
  {| IssueURL := Node.URL subIssue;
     Title := Node.Title subIssue;
     Author := Node.AuthorLogin subIssue;
     Assignees := Node.Assignees subIssue;
     CreatedAt := createdAtJST;
     ClosedAt := closedAt;
     State := Node.State subIssue;
     StateReason := stateReason;
     EstimatedTime := estimatedTime;
     ActualTime := actualTime;
     Size := size;
     Labels := Node.Labels subIssue;
     HasParent := true;
     SubIssues := [] |}.

(** The parse of [closedAt]: [None] is the parse error, [Some None] the
    nil pointer of an issue without a closing time. *)
Definition parseClosedAt (closedAt : option string) : option (option GoTime) :=
  match closedAt with
  | None => Some None
  | Some s =>
      match time_Parse s with
      | None => None
      | Some parsedTimeUTC => Some (Some (In_jst parsedTimeUTC))
      end
  end.

Section Pages.

(** The recursive call: the URL and the depth of the sub-issue. *)
Variable recur : string -> Z -> M (GoResult (list IssueTimeInfo)).

(** The body of the loop over the edges of one page: [None] is
    [continue], [Some] is the issue appended to [allSubIssues]. *)
Definition processEdge (depth : Z) (subIssue : Node.t)
  : M (option IssueTimeInfo) :=
  let stateReason :=
    match Node.StateReason subIssue with Some r => r | None => EmptyString end in
  if negb (String.eqb (Node.State subIssue) "CLOSED"
           && String.eqb stateReason "COMPLETED")
  then emit (LogSkipping (Node.Number subIssue) (Node.State subIssue) stateReason) ;;;
       ret None
  else
    match time_Parse (Node.CreatedAt subIssue) with
    | None => emit (LogCreatedAtParseError (Node.Number subIssue)) ;;; ret None
    | Some createdAtUTC =>
        let createdAtJST := In_jst createdAtUTC in
        match parseClosedAt (Node.ClosedAt subIssue) with
        | None => emit (LogClosedAtParseError (Node.Number subIssue)) ;;; ret None
        | Some closedAt =>
            let info := subIssueInfo subIssue createdAtJST closedAt in
            emit (LogFetching (Node.Number subIssue) (wrapInt (depth + 1))) ;;;
            r <- recur (Node.URL subIssue) (wrapInt (depth + 1)) ;;
            match r with
            | Err err =>
                emit (LogWarningFetch (Node.Number subIssue) err) ;;;
                ret (Some info)
            | Ok childIssues => ret (Some (withSubIssues info childIssues))
            end
        end
    end.

Fixpoint processEdges (depth : Z) (edges : list Node.t)
    (allSubIssues : list IssueTimeInfo) : M (list IssueTimeInfo) :=
  match edges with
  | [] => ret allSubIssues
  | subIssue :: rest =>
      o <- processEdge depth subIssue ;;
      processEdges depth rest
        (match o with
         | Some info => allSubIssues ++ [info]
         | None => allSubIssues
         end)
  end.

(** The pagination loop, one unit of [pageFuel] for every page. *)
Fixpoint pageLoop (pageFuel : nat) (owner repo : string) (issueNumber : Z)
    (depth : Z) (cursor : string) (allSubIssues : list IssueTimeInfo)
  : M (GoResult (list IssueTimeInfo)) :=
  match pageFuel with
  | O => ([], OutOfFuel)
  | S pageFuel' =>
      let cursorVariable :=
        if negb (String.eqb cursor EmptyString) then Some cursor else None in
      emit (Request owner repo issueNumber cursorVariable) ;;;
      match client owner repo issueNumber cursorVariable with
      | inl message => ret (Err (ExecuteError message))
      | inr response =>
          allSubIssues <- processEdges depth (Edges response) allSubIssues ;;
          if negb (HasNextPage response) then ret (Ok allSubIssues)
          else
            match EndCursor response with
            | None => ([], Panicked)
            | Some cursor =>
                pageLoop pageFuel' owner repo issueNumber depth cursor allSubIssues
            end
      end
  end.

End Pages.

(** [fuel] bounds the nesting of the recursive calls, [pageFuel] the pages
    of one issue. *)
Fixpoint fetchSubIssuesRecursively (fuel pageFuel : nat) (issueURL : string)
    (depth maxDepth : Z) {struct fuel} : M (GoResult (list IssueTimeInfo)) :=
  if depth >=? maxDepth
  then emit (LogReachedMaxDepth maxDepth issueURL) ;;; ret (Ok [])
  else
    match issueKey issueURL with
    | Err err => ret (Err err)
    | Ok (owner, repo, issueNumber) =>
        match fuel with
        | O => ([], OutOfFuel)
        | S fuel' =>
            pageLoop
              (fun url d => fetchSubIssuesRecursively fuel' pageFuel url d maxDepth)
              pageFuel owner repo issueNumber depth EmptyString []
        end
    end.

(** The loop of [enrichIssuesWithSubIssues]; the error it returns is always
    nil. *)
Fixpoint enrichLoop (fuel pageFuel : nat) (topLevelIssues : list IssueTimeInfo)
    (maxDepth : Z) : M (list IssueTimeInfo) :=
  match topLevelIssues with
  | [] => ret []
  | topIssue :: rest =>
      emit (LogTopLevelFetching (getIssueNumberFromURL (IssueURL topIssue))
                                (Title topIssue)) ;;;
      r <- fetchSubIssuesRecursively fuel pageFuel (IssueURL topIssue) 0 maxDepth ;;
      subIssues <-
        match r with
        | Err err =>
            emit (LogTopLevelError (getIssueNumberFromURL (IssueURL topIssue)) err) ;;;
            ret []
        | Ok subIssues => ret subIssues
        end ;;
      enriched <- enrichLoop fuel pageFuel rest maxDepth ;;
      ret (withSubIssues topIssue subIssues :: enriched)
  end.

Definition enrichIssuesWithSubIssues (fuel pageFuel : nat)
    (topLevelIssues : list IssueTimeInfo) (maxDepth : Z)
  : M (list IssueTimeInfo * option FetchError) :=
  enrichedIssues <- enrichLoop fuel pageFuel topLevelIssues maxDepth ;;
  ret (enrichedIssues, None).

End Builder.

(** The depth bound [main] passes to [enrichIssuesWithSubIssues]. *)
Definition maxRecursionDepth : Z := 5.

(** * Notions the statements use *)

Local Open Scope string_scope.
Local Open Scope list_scope.

(** ** Projections of the aggregate *)

Definition sumCount (r : SumResult) : Z := let '(count, _, _, _) := r in count.

Definition sumTotals (r : SumResult) : float * float :=
  let '(_, totalEstimated, totalActual, _) := r in (totalEstimated, totalActual).

(** ** What the totals may depend on *)

Inductive StoryTimes : Type := mkStoryTimes {
  storyEstimated : option float;
  storyActual : option float;
  storyChildren : list StoryTimes
}.

Section StoryView.
Variable ToLower : string -> string.

Fixpoint storyTimesOf (issue : IssueTimeInfo) : StoryTimes :=
  {| storyEstimated :=
       if hasSBI ToLower issue && (0 <=? EstimatedTime issue)%float
       then Some (EstimatedTime issue) else None;
     storyActual :=
       if hasSBI ToLower issue && (0 <=? ActualTime issue)%float
       then Some (ActualTime issue) else None;
     storyChildren := map storyTimesOf (SubIssues issue) |}.
End StoryView.

Definition addIfPresent (total : float) (x : option float) : float :=
  match x with
  | Some v => (total + v)%float
  | None => total
  end.

Section SpecLoop.
Variable recur : StoryTimes -> float * float.

Fixpoint spec_totalsLoop (nodes : list StoryTimes) (acc : float * float)
  : float * float :=
  match nodes with
  | [] => acc
  | node :: rest =>
      let '(totalEstimated, totalActual) := acc in
      let '(subEst, subAct) := recur node in
      spec_totalsLoop rest
        ((addIfPresent totalEstimated (storyEstimated node) + subEst)%float,
         (addIfPresent totalActual (storyActual node) + subAct)%float)
  end.
End SpecLoop.

Fixpoint spec_totalsBelow (node : StoryTimes) : float * float :=
  spec_totalsLoop spec_totalsBelow (storyChildren node) (0%float, 0%float).

Definition spec_totals (nodes : list StoryTimes) : float * float :=
  spec_totalsLoop spec_totalsBelow nodes (0%float, 0%float).

(** ** A clause occurs in a reason *)

Definition occursIn (clause reason : string) : Prop :=
  exists before after, reason = (before ++ clause ++ after)%string.

Fixpoint isPrefix (p s : string) : bool :=
  match p, s with
  | EmptyString, _ => true
  | String a p', String b s' => Ascii.eqb a b && isPrefix p' s'
  | String _ _, EmptyString => false
  end.

Fixpoint isInfix (p s : string) : bool :=
  isPrefix p s || match s with
                  | EmptyString => false
                  | String _ s' => isInfix p s'
                  end.


(** ** The clauses an issue triggers *)

Section Clauses.
Variable ToLower : string -> string.

Definition sizeMissing (issue : IssueTimeInfo) : bool :=
  hasPBI ToLower issue && (Size issue <? 0)%float.

Definition estimatedMissing (issue : IssueTimeInfo) : bool :=
  hasSBI ToLower issue && (EstimatedTime issue <? 0)%float.

Definition actualMissing (issue : IssueTimeInfo) : bool :=
  hasSBI ToLower issue && (ActualTime issue <? 0)%float.

Definition difficultyMissing (issue : IssueTimeInfo) : bool :=
  hasSBI ToLower issue && negb (hasDifficultyLabel ToLower issue).
End Clauses.

(** ** Reasoning about calls *)

(** [Q] holds of the value when the call returns. *)
Definition post {A : Type} (m : M A) (Q : A -> Prop) : Prop :=
  match snd m with
  | Returned a => Q a
  | _ => True
  end.

(** The call ends within the fuel it was given. *)
Definition ends {A : Type} (m : M A) : Prop := snd m <> OutOfFuel.

(** The call returns: it neither panics nor runs out of fuel. *)
Definition returns {A : Type} (m : M A) : Prop := exists a, snd m = Returned a.

Definition onOk {A : Type} (Q : A -> Prop) (r : GoResult A) : Prop :=
  match r with
  | Ok a => Q a
  | Err _ => True
  end.

Definition requests (trace : list Event) : list Event := filter isRequest trace.

(** Every chain of pages of the issue ends (a last page, an error or a nil
    cursor) within [n] requests, starting from [cursor]. *)
Fixpoint pagesEnd (client : GraphQLClient) (owner repo : string) (issueNumber : Z)
    (n : nat) (cursor : string) : bool :=
  match n with
  | O => false
  | S n' =>
      match client owner repo issueNumber
                   (if negb (String.eqb cursor EmptyString) then Some cursor else None)
      with
      | inl _ => true
      | inr response =>
          if negb (HasNextPage response) then true
          else match EndCursor response with
               | None => true
               | Some next => pagesEnd client owner repo issueNumber n' next
               end
      end
  end.

Definition paginationBounded (client : GraphQLClient) (pageFuel : nat) : Prop :=
  forall owner repo issueNumber,
    pagesEnd client owner repo issueNumber pageFuel EmptyString = true.

(** A page that announces a next page carries the cursor to it. *)
Definition cursorsPresent (client : GraphQLClient) : Prop :=
  forall owner repo issueNumber cursor response,
    client owner repo issueNumber cursor = inr response ->
    HasNextPage response = true -> EndCursor response <> None.

Definition completed (issue : IssueTimeInfo) : Prop :=
  State issue = "CLOSED" /\ StateReason issue = "COMPLETED".

(** [m] with the events [t] in front of its trace. *)
Definition withTrace {A : Type} (t : list Event) (m : M A) : M A :=
  (t ++ fst m, snd m).

(** The forest has an issue with the URL. *)
Definition listsItself (issueURL : string) (l : list IssueTimeInfo) : Prop :=
  exists issue, In issue l /\ IssueURL issue = issueURL.

(** * Concrete inputs *)

Module Examples.

Definition toLower : string -> string := GoStrings.asciiToLower.

(** A stand-in for [time.Parse] on the inputs below: the empty string is a
    parse error, every other string is read as the epoch. *)
Definition parseTime (s : string) : option GoTime :=
  if String.eqb s EmptyString then None
  else Some {| unixSeconds := 0; zoneOffset := 0 |}.

Definition urlOf (n : string) : string :=
  ("https://github.com/o/r/issues/" ++ n)%string.

Definition nodeWith (number : Z) (n : string) (state : string)
    (stateReason : option string) : Node.t :=
  {| Node.Id := ("I_" ++ n)%string;
     Node.Number := number;
     Node.Title := ("issue " ++ n)%string;
     Node.State := state;
     Node.StateReason := stateReason;
     Node.AuthorLogin := "alice";
     Node.Labels := [];
     Node.Assignees := [];
     Node.URL := urlOf n;
     Node.CreatedAt := "2025-01-06T09:00:00Z";
     Node.ClosedAt := Some "2025-01-10T18:00:00Z";
     Node.ProjectItems := [] |}.

Definition completedNode (number : Z) (n : string) : Node.t :=
  nodeWith number n "CLOSED" (Some "COMPLETED").

Definition openNode (number : Z) (n : string) : Node.t :=
  nodeWith number n "OPEN" None.

Definition lastPage (edges : list Node.t) : string + SubIssueQueryResponse :=
  inr {| Edges := edges; HasNextPage := false; EndCursor := None |}.

(** root 1 -> child 2 -> grandchild 3 -> great-grandchild 4, all completed. *)
Definition chainClient : GraphQLClient :=
  fun _ _ issueNumber _ =>
    if (issueNumber =? 1)%Z then lastPage [completedNode 2 "2"]
    else if (issueNumber =? 2)%Z then lastPage [completedNode 3 "3"]
    else if (issueNumber =? 3)%Z then lastPage [completedNode 4 "4"]
    else lastPage [].

(** Issue 1 is reported as its own sub-issue. *)
Definition selfClient : GraphQLClient :=
  fun _ _ _ _ => lastPage [completedNode 1 "1"].

(** Issue 1 has the children 2 and 3; the request for the children of 2
    fails. *)
Definition failingClient : GraphQLClient :=
  fun _ _ issueNumber _ =>
    if (issueNumber =? 1)%Z then lastPage [completedNode 2 "2"; completedNode 3 "3"]
    else if (issueNumber =? 2)%Z then inl "graphql errors: timeout"%string
    else lastPage [].

(** Issue 1 has the open child 2 and the completed child 3; the completed
    issue 4 is below 2. *)
Definition prunedClient : GraphQLClient :=
  fun _ _ issueNumber _ =>
    if (issueNumber =? 1)%Z then lastPage [openNode 2 "2"; completedNode 3 "3"]
    else if (issueNumber =? 2)%Z then lastPage [completedNode 4 "4"]
    else lastPage [].

Definition issueWith (n : string) (labels : list string)
    (estimatedTime actualTime size : float) (subIssues : list IssueTimeInfo)
  : IssueTimeInfo :=
  {| IssueURL := urlOf n;
     Title := ("issue " ++ n)%string;
     Author := "alice";
     Assignees := [];
     CreatedAt := {| unixSeconds := 0; zoneOffset := jstOffset |};
     ClosedAt := None;
     State := "CLOSED";
     StateReason := "COMPLETED";
     EstimatedTime := estimatedTime;
     ActualTime := actualTime;
     Size := size;
     Labels := labels;
     HasParent := false;
     SubIssues := subIssues |}.

Definition rootIssue : IssueTimeInfo :=
  issueWith "1" ["pbi"%string] (-1)%float (-1)%float 5%float [].

(** A Story-class issue: 4 hours estimated, 3 hours spent. *)
Definition story : IssueTimeInfo :=
  issueWith "2" ["SBI"; "Difficulty:Low"]%string 4%float 3%float (-1)%float [].

(** An Epic-class issue that carries an estimate. *)
Definition epic : IssueTimeInfo :=
  issueWith "3" ["dev-pbi"%string] 7%float (-1)%float 2%float [].

Definition family : IssueTimeInfo :=
  issueWith "1" ["pbi"%string] (-1)%float (-1)%float 5%float [story; epic].

(** Story-class, no estimate and no difficulty label. *)
Definition storyWithoutEstimate : IssueTimeInfo :=
  issueWith "4" ["sbi"%string] (-1)%float 2%float (-1)%float [].

(** Epic-class and Story-class at once, without Size and estimate. *)
Definition epicStory : IssueTimeInfo :=
  issueWith "5" ["pbi"; "sbi"; "difficulty:high"]%string
            (-1)%float 1%float (-1)%float [].

(** Story-class with both times set to zero. *)
Definition zeroStory : IssueTimeInfo :=
  issueWith "6" ["sbi"; "difficulty:low"]%string 0%float 0%float (-1)%float [].

(** Epic-class without Size. *)
Definition epicWithoutSize : IssueTimeInfo :=
  issueWith "7" ["PBI"%string] (-1)%float (-1)%float (-1)%float [].

End Examples.

(** * More of the program *)

(** The issues of a tree, the parent before its children, and of a forest. *)
Fixpoint issueNodes (issue : IssueTimeInfo) : list IssueTimeInfo :=
  issue :: fold_right (fun sub rest => issueNodes sub ++ rest) [] (SubIssues issue).

Definition forestNodes (l : list IssueTimeInfo) : list IssueTimeInfo :=
  fold_right (fun sub rest => issueNodes sub ++ rest) [] l.

Definition sumViolations (r : SumResult) : list string :=
  let '(_, _, _, violations) := r in violations.

(** What [checkRecursively] appends for the issue itself. *)
Definition reported (ToLower : string -> string) (issue : IssueTimeInfo)
  : list RuleViolation :=
  match ownViolation ToLower issue with
  | Some v => [v]
  | None => []
  end.


(** ** The filters of the root issues *)

Record DateRange : Type := mkDateRange {
  StartDate : GoTime;
  EndDate : GoTime
}.

Module Weekly.
Record Period : Type := mkPeriod {
  StartDate : GoTime;
  EndDate : GoTime;
  Weekday : Z
}.
End Weekly.

Record FilterOptions : Type := mkFilterOptions {
  ClosedDateRange : option DateRange;
  CreatedAfterDate : option GoTime;
  IncludeOpenIssues : bool;
  WeeklyPeriod : option Weekly.Period;
  RequireSbiLabel : bool;
  ExcludeNotPlanned : bool;
  AllowedRepositories : list string
}.

(** [isRepoInAllowedList]; [None] is the panic of [strings.Split(issueURL,
    "/")[3]] on a URL with fewer than four parts.  [strings.HasPrefix(s, p)]
    is [isPrefix p s]. *)
Fixpoint isRepoInAllowedList (issueURL : string) (allowedRepos : list string)
  : option bool :=
  match allowedRepos with
  | [] => Some false
  | repo :: rest =>
      match nth_error (GoStrings.Split issueURL "/") 3 with
      | None => None
      | Some owner =>
          let repoURL := ("https://github.com/" ++ owner ++ "/" ++ repo)%string in
          if isPrefix repoURL issueURL then Some true
          else isRepoInAllowedList issueURL rest
      end
  end.

(** A loop that appends the issues its body does not skip; the body panics
    with [None]. *)
Fixpoint filterLoop (keep : IssueTimeInfo -> option bool)
    (issues filtered : list IssueTimeInfo) : option (list IssueTimeInfo) :=
  match issues with
  | [] => Some filtered
  | issue :: rest =>
      match keep issue with
      | None => None
      | Some true => filterLoop keep rest (filtered ++ [issue])
      | Some false => filterLoop keep rest filtered
      end
  end.

(** The body of the loop keeps the issue. *)
Definition keptBy (keep : IssueTimeInfo -> option bool) (issue : IssueTimeInfo)
  : bool :=
  match keep issue with
  | Some true => true
  | _ => false
  end.

Section Filters.

(** [t.Before(u)] and [t.After(u)] of [time.Time]. *)
Variable Before : GoTime -> GoTime -> bool.
Variable After : GoTime -> GoTime -> bool.

(** The tests the three filters share: the repository, the parent, the
    state.  [Some false] is [continue]. *)
Definition keptTopLevel (allowedRepos : list string) (issue : IssueTimeInfo)
  : option bool :=
  match isRepoInAllowedList (IssueURL issue) allowedRepos with
  | None => None
  | Some allowed =>
      Some (if negb allowed then false
            else if HasParent issue then false
            else if negb (String.eqb (State issue) "CLOSED")
                    || negb (String.eqb (StateReason issue) "COMPLETED")
            then false
            else true)
  end.

(** The body of the loop of [filterIssues]. *)
Definition keptByFilterIssues (options : FilterOptions) (issue : IssueTimeInfo)
  : option bool :=
  match keptTopLevel (AllowedRepositories options) issue with
  | Some true =>
      Some (match ClosedDateRange options, ClosedAt issue with
            | Some range, Some closedAt =>
                if Before closedAt (StartDate range) || After closedAt (EndDate range)
                then false else true
            | _, _ => true
            end)
  | other => other
  end.

Definition filterIssues (issues : list IssueTimeInfo) (options : FilterOptions)
  : option (list IssueTimeInfo) :=
  filterLoop (keptByFilterIssues options) issues [].

(** The body of the loop of [filterIssuesByCreationDate]. *)
Definition keptByCreationDate (startDate : GoTime) (baseOptions : FilterOptions)
    (issue : IssueTimeInfo) : option bool :=
  match keptTopLevel (AllowedRepositories baseOptions) issue with
  | Some true => Some (if Before (CreatedAt issue) startDate then false else true)
  | other => other
  end.

Definition filterIssuesByCreationDate (issues : list IssueTimeInfo)
    (startDate : GoTime) (baseOptions : FilterOptions)
  : option (list IssueTimeInfo) :=
  filterLoop (keptByCreationDate startDate baseOptions) issues [].

(** The body of the loop of [filterIssuesByWeeklyPeriod]. *)
Definition keptByWeeklyPeriod (period : Weekly.Period) (baseOptions : FilterOptions)
    (issue : IssueTimeInfo) : option bool :=
  match keptTopLevel (AllowedRepositories baseOptions) issue with
  | Some true =>
      Some (match ClosedAt issue with
            | None => false
            | Some closedAt =>
                if Before closedAt (Weekly.StartDate period)
                   || negb (Before closedAt (Weekly.EndDate period))
                then false else true
            end)
  | other => other
  end.

Definition filterIssuesByWeeklyPeriod (issues : list IssueTimeInfo)
    (period : Weekly.Period) (baseOptions : FilterOptions)
  : option (list IssueTimeInfo) :=
  filterLoop (keptByWeeklyPeriod period baseOptions) issues [].

End Filters.

(** ** The statistics of the hierarchy *)

(** Go's [map[int]int]: the keys that were written, each with its value; a
    key that was never written reads as zero. *)
Definition DepthCounts : Type := list (Z * Z).

Fixpoint mapGet (m : DepthCounts) (k : Z) : Z :=
  match m with
  | [] => 0
  | (k', v) :: rest => if (k' =? k)%Z then v else mapGet rest k
  end.

Fixpoint mapSet (m : DepthCounts) (k v : Z) : DepthCounts :=
  match m with
  | [] => [(k, v)]
  | (k', v') :: rest =>
      if (k' =? k)%Z then (k, v) :: rest else (k', v') :: mapSet rest k v
  end.

(** [m[k]++]. *)
Definition mapIncr (m : DepthCounts) (k : Z) : DepthCounts :=
  mapSet m k (wrapInt (mapGet m k + 1)).

Section CountLoop.
(** [countRecursively(issue.SubIssues, depth)] with the map it writes to. *)
Variable recur : IssueTimeInfo -> Z -> DepthCounts -> Z * DepthCounts.

(** The loop of the closure [countRecursively]. *)
Fixpoint countLoop (issues : list IssueTimeInfo) (depth count : Z)
    (depthCounts : DepthCounts) : Z * DepthCounts :=
  match issues with
  | [] => (count, depthCounts)
  | issue :: rest =>
      let count := wrapInt (count + 1) in
      let depthCounts := mapIncr depthCounts depth in
      let '(count, depthCounts) :=
        if (0 <? Z.of_nat (List.length (SubIssues issue)))%Z
        then let '(below, depthCounts) :=
               recur issue (wrapInt (depth + 1)) depthCounts in
             (wrapInt (count + below), depthCounts)
        else (count, depthCounts) in
      countLoop rest depth count depthCounts
  end.
End CountLoop.

Fixpoint countBelow (issue : IssueTimeInfo) (depth : Z) (depthCounts : DepthCounts)
  : Z * DepthCounts :=
  countLoop countBelow (SubIssues issue) depth 0 depthCounts.

(** The body of the loop over the roots, on [totalSubIssues] and the map. *)
Definition countRoot (state : Z * DepthCounts) (issue : IssueTimeInfo)
  : Z * DepthCounts :=
  let '(totalSubIssues, depthCounts) := state in
  let depthCounts := mapIncr depthCounts 0 in
  if (0 <? Z.of_nat (List.length (SubIssues issue)))%Z
  then let '(below, depthCounts) := countBelow issue 1 depthCounts in
       (wrapInt (totalSubIssues + below), depthCounts)
  else (totalSubIssues, depthCounts).

Definition calculateIssueHierarchyStats (issues : list IssueTimeInfo)
  : Z * Z * DepthCounts :=
  let totalIssues := Z.of_nat (List.length issues) in
  let '(totalSubIssues, depthCounts) :=
    fold_left countRoot issues (0, [] : DepthCounts) in
  (totalIssues, totalSubIssues, depthCounts).

(** The number of issues of a tree, and of a forest, [d] levels down. *)
Fixpoint issueLevelCount (issue : IssueTimeInfo) (d : nat) {struct issue} : Z :=
  match d with
  | O => 1
  | S d' => fold_right (fun sub n => issueLevelCount sub d' + n) 0 (SubIssues issue)
  end.

Definition levelCount (l : list IssueTimeInfo) (d : nat) : Z :=
  fold_right (fun sub n => issueLevelCount sub d + n) 0 l.

(** ** The weekly period *)

(** What [main] makes of a WEEKDAY that is set: [None] is [log.Fatalf]. *)
Definition weekdayOfEnv (weekdayStr : string) : option Z :=
  match GoStrings.Atoi weekdayStr with
  | None => None
  | Some wd =>
      if (wd <? 0)%Z || (wd >? 7)%Z then None
      else Some (if (wd =? 7)%Z then 0 else wd)
  end.

(** The variable [daysSinceTargetWeekday] of [calculateWeeklyPeriod], from
    [int(yesterday.Weekday())] and [weekday]; Go's [%] is [Z.rem]. *)
Definition daysSinceTargetWeekday (yesterdayWeekday weekday : Z) : Z :=
  Z.rem (wrapInt (wrapInt (yesterdayWeekday - weekday) + 7)) 7.

(** ** Bytes of a string *)

(** The byte occurs in the string. *)
Fixpoint containsByte (s : string) (c : ascii) : bool :=
  match s with
  | EmptyString => false
  | String x rest => Ascii.eqb x c || containsByte rest c
  end.

(** How often the byte occurs in the string. *)
Fixpoint countByte (s : string) (c : ascii) : nat :=
  match s with
  | EmptyString => O
  | String x rest => (if Ascii.eqb x c then 1 else 0) + countByte rest c
  end.

(** ** The edges of an issue *)

(** The edge becomes a child: it is completed and its times parse. *)
Definition keepable (time_Parse : string -> option GoTime) (subIssue : Node.t)
  : bool :=
  isCompleted subIssue
  && match time_Parse (Node.CreatedAt subIssue) with
     | Some _ => true
     | None => false
     end
  && match parseClosedAt time_Parse (Node.ClosedAt subIssue) with
     | Some _ => true
     | None => false
     end.

(** The edges of the pages of an issue, in the order of the pages, as far
    as the pagination loop reads them. *)
Fixpoint drainEdges (client : GraphQLClient) (owner repo : string)
    (issueNumber : Z) (pageFuel : nat) (cursor : string) : list Node.t :=
  match pageFuel with
  | O => []
  | S pageFuel' =>
      match client owner repo issueNumber
                   (if negb (String.eqb cursor EmptyString) then Some cursor else None)
      with
      | inl _ => []
      | inr response =>
          Edges response
            ++ (if negb (HasNextPage response) then []
                else match EndCursor response with
                     | None => []
                     | Some next =>
                         drainEdges client owner repo issueNumber pageFuel' next
                     end)
      end
  end.

(** ** The custom fields *)

(** The number a field value gives to the field [name]. *)
Definition numberFor (name : string) (fieldValue : Node.FieldValue) : option float :=
  if String.eqb (Node.TypeName fieldValue) "ProjectV2ItemFieldNumberValue"
     && String.eqb (Node.FieldName fieldValue) name
  then Node.FieldNumber fieldValue
  else None.

(** The last number the field values give to the field, or -1. *)
Definition lastNumberFor (name : string) (fieldValues : list Node.FieldValue)
  : float :=
  fold_left (fun value fieldValue =>
               match numberFor name fieldValue with
               | Some number => number
               | None => value
               end)
            fieldValues (-1)%float.

(** ** More concrete inputs *)

Module MoreExamples.

(** [Before] and [After] on the instants of the examples. *)
Definition before (t u : GoTime) : bool := (unixSeconds t <? unixSeconds u)%Z.
Definition after (t u : GoTime) : bool := (unixSeconds u <? unixSeconds t)%Z.

Definition at_ (seconds : Z) : GoTime :=
  {| unixSeconds := seconds; zoneOffset := jstOffset |}.

Definition closedAt_ (issue : IssueTimeInfo) (closedAt : option GoTime)
    (hasParent : bool) : IssueTimeInfo :=
  mkIssue (IssueURL issue) (Title issue) (Author issue) (Assignees issue)
          (CreatedAt issue) closedAt (State issue) (StateReason issue)
          (EstimatedTime issue) (ActualTime issue) (Size issue) (Labels issue)
          hasParent (SubIssues issue).

(** The repository r is allowed; the issues were closed between 100 and 200. *)
Definition options : FilterOptions :=
  {| ClosedDateRange := Some {| StartDate := at_ 100; EndDate := at_ 200 |};
     CreatedAfterDate := None;
     IncludeOpenIssues := false;
     WeeklyPeriod := None;
     RequireSbiLabel := false;
     ExcludeNotPlanned := false;
     AllowedRepositories := ["r"%string] |}.

Definition optionsWithoutRange : FilterOptions :=
  {| ClosedDateRange := None;
     CreatedAfterDate := None;
     IncludeOpenIssues := false;
     WeeklyPeriod := None;
     RequireSbiLabel := false;
     ExcludeNotPlanned := false;
     AllowedRepositories := ["r"%string] |}.

(** A root closed in the range, a root closed after it, a root without
    closing time and a sub-issue. *)
Definition projectIssues : list IssueTimeInfo :=
  [closedAt_ Examples.family (Some (at_ 150)) false;
   closedAt_ Examples.epic (Some (at_ 250)) false;
   closedAt_ Examples.rootIssue None false;
   closedAt_ Examples.story (Some (at_ 150)) true].

Definition week : Weekly.Period :=
  {| Weekly.StartDate := at_ 140; Weekly.EndDate := at_ 160; Weekly.Weekday := 1 |}.

(** A number-typed value of the field. *)
Definition numberValue (name : string) (number : float) : Node.FieldValue :=
  {| Node.TypeName := "ProjectV2ItemFieldNumberValue";
     Node.FieldName := name;
     Node.FieldNumber := Some number |}.

End MoreExamples.

(** The issues of the forest at the depth [k], when the forest starts at the
    depth [depth]. *)
Definition levelAt (l : list IssueTimeInfo) (depth k : Z) : Z :=
  if (k <? depth)%Z then 0 else levelCount l (Z.to_nat (k - depth)).

(** What the closure [countRecursively] does below an issue, as long as no
    counter leaves the range of [int]. *)
Definition countsBelow (recur : IssueTimeInfo -> Z -> DepthCounts -> Z * DepthCounts)
    (issue : IssueTimeInfo) : Prop :=
  forall depth m,
    0 <= depth ->
    depth + forestSize (SubIssues issue) < 2 ^ 63 ->
    (forall k, 0 <= mapGet m k /\ mapGet m k + forestSize (SubIssues issue) < 2 ^ 63) ->
    fst (recur issue depth m) = forestSize (SubIssues issue)
    /\ forall k, mapGet (snd (recur issue depth m)) k
                 = mapGet m k + levelAt (SubIssues issue) depth k.

(** * Facts about the aggregator and the validators *)

Lemma wrapInt_small z : is_int z -> wrapInt z = z.
Proof.
  unfold is_int, wrapInt; intros H.
  rewrite Z.mod_small; lia.
Qed.

Section RulesFacts.
Variable ToLower : string -> string.

Lemma issueSize_unfold issue : issueSize issue = 1 + forestSize (SubIssues issue).
Proof. destruct issue; reflexivity. Qed.

Lemma forestSize_cons issue rest :
  forestSize (issue :: rest) = issueSize issue + forestSize rest.
Proof. reflexivity. Qed.

Lemma issueSize_pos issue : 0 < issueSize issue.
Proof.
  induction issue as [issue IH] using issue_ind'.
  rewrite issueSize_unfold.
  enough (0 <= forestSize (SubIssues issue)) by lia.
  induction IH as [|sub rest Hsub _ IHrest]; [cbn; lia|].
  rewrite forestSize_cons. lia.
Qed.

Lemma forestSize_nonneg l : 0 <= forestSize l.
Proof.
  induction l as [|issue rest IH]; [cbn; lia|].
  rewrite forestSize_cons. pose proof (issueSize_pos issue). lia.
Qed.

Lemma sumOfSubIssues_unfold issue :
  sumOfSubIssues ToLower issue
  = sumSubIssueTimeAndViolations ToLower (SubIssues issue).
Proof. destruct issue; reflexivity. Qed.

Lemma sumCount_step acc issue sub :
  sumCount (sumStep ToLower acc issue sub) = wrapInt (sumCount acc + sumCount sub).
Proof.
  destruct acc as [[[c e] a] v], sub as [[[c' e'] a'] v']. reflexivity.
Qed.

Lemma sumLoop_count recur l :
  Forall (fun issue => forestSize (SubIssues issue) < 2 ^ 63 ->
                       sumCount (recur issue) = forestSize (SubIssues issue)) l ->
  forall acc,
    0 <= sumCount acc ->
    sumCount acc + (forestSize l - Z.of_nat (List.length l)) < 2 ^ 63 ->
    sumCount (sumLoop ToLower recur l acc)
    = sumCount acc + (forestSize l - Z.of_nat (List.length l)).
Proof.
  induction 1 as [|issue rest Hissue _ IH]; intros acc Hacc Hbound.
  - cbn. lia.
  - cbn [sumLoop]. rewrite forestSize_cons, issueSize_unfold in *.
    cbn [List.length] in *. rewrite Nat2Z.inj_succ in *.
    pose proof (forestSize_nonneg (SubIssues issue)) as Hs.
    pose proof (forestSize_nonneg rest) as Hr.
    assert (Hlen : Z.of_nat (List.length rest) <= forestSize rest).
    { clear. induction rest as [|i r IHr]; [cbn; lia|].
      rewrite forestSize_cons. cbn [List.length]. rewrite Nat2Z.inj_succ.
      pose proof (issueSize_pos i). lia. }
    assert (Hsub : sumCount (recur issue) = forestSize (SubIssues issue))
      by (apply Hissue; lia).
    rewrite IH; rewrite sumCount_step, Hsub, wrapInt_small;
      unfold is_int; lia.
Qed.

Lemma sumSubIssues_count l :
  forestSize l < 2 ^ 63 ->
  sumCount (sumSubIssueTimeAndViolations ToLower l) = forestSize l.
Proof.
  assert (Hall : forall issue,
             forestSize (SubIssues issue) < 2 ^ 63 ->
             sumCount (sumOfSubIssues ToLower issue) = forestSize (SubIssues issue)).
  { induction issue as [issue IH] using issue_ind'. intros Hb.
    rewrite sumOfSubIssues_unfold. unfold sumSubIssueTimeAndViolations.
    pose proof (forestSize_nonneg (SubIssues issue)).
    rewrite (sumLoop_count _ _ IH); cbn [sumInit sumCount]; lia. }
  intros Hb. unfold sumSubIssueTimeAndViolations.
  assert (HF : Forall (fun issue => forestSize (SubIssues issue) < 2 ^ 63 ->
                sumCount (sumOfSubIssues ToLower issue)
                = forestSize (SubIssues issue)) l)
    by (apply Forall_forall; intros issue _; apply Hall).
  pose proof (forestSize_nonneg l).
  rewrite (sumLoop_count _ _ HF); cbn [sumInit sumCount]; lia.
Qed.

Lemma calculateIssueSummaries_map issues :
  calculateIssueSummaries ToLower issues = map (summaryOf ToLower) issues.
Proof.
  unfold calculateIssueSummaries.
  enough (H : forall acc,
             fold_left (fun summaries issue => summaries ++ [summaryOf ToLower issue])
                       issues acc = acc ++ map (summaryOf ToLower) issues)
    by (apply (H [])).
  induction issues as [|issue rest IH]; intros acc; cbn.
  - now rewrite app_nil_r.
  - rewrite IH, <- app_assoc. reflexivity.
Qed.

Lemma SubIssueCount_summaryOf issue :
  SubIssueCount (summaryOf ToLower issue)
  = sumCount (sumSubIssueTimeAndViolations ToLower (SubIssues issue)).
Proof.
  unfold summaryOf.
  destruct (sumSubIssueTimeAndViolations ToLower (SubIssues issue))
    as [[[c e] a] v]. reflexivity.
Qed.
End RulesFacts.

Section TotalsFacts.
Variable ToLower : string -> string.

Lemma storyTimesOf_children issue :
  storyChildren (storyTimesOf ToLower issue)
  = map (storyTimesOf ToLower) (SubIssues issue).
Proof. destruct issue; reflexivity. Qed.

Lemma spec_totalsBelow_unfold node :
  spec_totalsBelow node = spec_totals (storyChildren node).
Proof. destruct node; reflexivity. Qed.

Lemma sumTotals_step acc issue sub :
  sumTotals (sumStep ToLower acc issue sub)
  = ((addIfPresent (fst (sumTotals acc))
                   (storyEstimated (storyTimesOf ToLower issue))
      + fst (sumTotals sub))%float,
     (addIfPresent (snd (sumTotals acc))
                   (storyActual (storyTimesOf ToLower issue))
      + snd (sumTotals sub))%float).
Proof.
  destruct acc as [[[c e] a] v], sub as [[[c' e'] a'] v'], issue.
  cbn -[hasSBI PrimFloat.leb PrimFloat.add].
  destruct (hasSBI ToLower _ && _), (hasSBI ToLower _ && _); reflexivity.
Qed.

Lemma sumLoop_totals recur recur' l :
  Forall (fun issue => sumTotals (recur issue)
                       = recur' (storyTimesOf ToLower issue)) l ->
  forall acc,
    sumTotals (sumLoop ToLower recur l acc)
    = spec_totalsLoop recur' (map (storyTimesOf ToLower) l) (sumTotals acc).
Proof.
  induction 1 as [|issue rest Hissue _ IH]; intros acc; [reflexivity|].
  cbn [sumLoop map spec_totalsLoop]. rewrite IH, sumTotals_step, <- Hissue.
  destruct (sumTotals acc), (sumTotals (recur issue)). reflexivity.
Qed.

Lemma sumOfSubIssues_totals issue :
  sumTotals (sumOfSubIssues ToLower issue)
  = spec_totalsBelow (storyTimesOf ToLower issue).
Proof.
  induction issue as [issue IH] using issue_ind'.
  rewrite sumOfSubIssues_unfold, spec_totalsBelow_unfold, storyTimesOf_children.
  unfold sumSubIssueTimeAndViolations, spec_totals.
  now rewrite (sumLoop_totals _ _ _ IH).
Qed.

Lemma sumSubIssues_totals l :
  sumTotals (sumSubIssueTimeAndViolations ToLower l)
  = spec_totals (map (storyTimesOf ToLower) l).
Proof.
  unfold sumSubIssueTimeAndViolations, spec_totals.
  rewrite (sumLoop_totals (sumOfSubIssues ToLower) spec_totalsBelow); [reflexivity|].
  apply Forall_forall. intros issue _. apply sumOfSubIssues_totals.
Qed.
End TotalsFacts.

(** ** The sentinel test on binary64 *)

Lemma Prim2SF_zero : Prim2SF 0%float = S754_zero false.
Proof. reflexivity. Qed.

Lemma leb0_of_not_ltb0 (x : float) :
  PrimFloat.is_nan x = false -> (0 <=? x)%float = negb (x <? 0)%float.
Proof.
  unfold PrimFloat.is_nan. rewrite eqb_spec, leb_spec, ltb_spec, Prim2SF_zero.
  unfold SFeqb, SFleb, SFltb.
  destruct (Prim2SF x) as [s|s| |s m e]; cbn; try destruct s; cbn; congruence.
Qed.

Lemma ltb0_not_leb0 (x : float) :
  (x <? 0)%float = true -> (0 <=? x)%float = false.
Proof.
  rewrite leb_spec, ltb_spec, Prim2SF_zero. unfold SFleb, SFltb.
  destruct (Prim2SF x) as [s|s| |s m e]; cbn; try destruct s; cbn; congruence.
Qed.

(** ** Strings *)

Local Open Scope string_scope.

Lemma append_assoc (a b c : string) : (a ++ b) ++ c = a ++ (b ++ c).
Proof. induction a as [|x a IH]; cbn; [reflexivity|now rewrite IH]. Qed.

Lemma append_nil_r (a : string) : a ++ "" = a.
Proof. induction a as [|x a IH]; cbn; [reflexivity|now rewrite IH]. Qed.

Lemma append_inv_head (a b c : string) : a ++ b = a ++ c -> b = c.
Proof. induction a as [|x a IH]; cbn; intros H; [exact H|]. injection H. exact IH. Qed.

Lemma occursIn_self s : occursIn s s.
Proof. exists "", "". cbn. now rewrite append_nil_r. Qed.

Lemma occursIn_append_l c s t : occursIn c s -> occursIn c (s ++ t).
Proof.
  intros (before & after & ->). exists before, (after ++ t).
  now rewrite !append_assoc.
Qed.

Lemma occursIn_append_r c s t : occursIn c t -> occursIn c (s ++ t).
Proof.
  intros (before & after & ->). exists (s ++ before), after.
  now rewrite !append_assoc.
Qed.

Lemma occursIn_trans a b c : occursIn a b -> occursIn b c -> occursIn a c.
Proof.
  intros (p & q & ->) (p' & q' & ->). exists (p' ++ p), (q ++ q').
  now rewrite !append_assoc.
Qed.

Create HintDb occurs.
#[local] Hint Resolve occursIn_self occursIn_append_l occursIn_append_r : occurs.

Lemma isPrefix_append p t : isPrefix p (p ++ t) = true.
Proof.
  induction p as [|a p IH]; cbn; [reflexivity|].
  now rewrite Ascii.eqb_refl, IH.
Qed.

Lemma occursIn_isInfix clause reason : occursIn clause reason -> isInfix clause reason = true.
Proof.
  intros (before & after & ->).
  induction before as [|a before IH]; cbn [append].
  - destruct (clause ++ after) eqn:E; cbn; rewrite <- E, isPrefix_append; reflexivity.
  - cbn [isInfix]. rewrite IH. apply orb_true_r.
Qed.

Local Open Scope list_scope.

Section ValidatorFacts.
Variable ToLower : string -> string.

Lemma missingFields_cases issue :
  missingFields issue
  = (if (EstimatedTime issue <? 0)%float then [estimatedLabel] else [])
      ++ (if (ActualTime issue <? 0)%float then [actualLabel] else []).
Proof.
  unfold missingFields.
  destruct (EstimatedTime issue <? 0)%float, (ActualTime issue <? 0)%float;
    reflexivity.
Qed.

Lemma missingFields_nonempty issue :
  (0 <? Z.of_nat (List.length (missingFields issue)))%Z
  = ((EstimatedTime issue <? 0)%float || (ActualTime issue <? 0)%float)%bool.
Proof.
  rewrite missingFields_cases.
  destruct (EstimatedTime issue <? 0)%float, (ActualTime issue <? 0)%float;
    reflexivity.
Qed.

Lemma checkIssueRuleViolation_clauses issue :
  checkIssueRuleViolation ToLower issue
  = (if sizeMissing ToLower issue then [sizeMessage issue] else [])
      ++ (if estimatedMissing ToLower issue || actualMissing ToLower issue
          then [fieldsMessage issue] else [])
      ++ (if difficultyMissing ToLower issue then [difficultyMessage issue] else []).
Proof.
  unfold checkIssueRuleViolation, sizeMissing, estimatedMissing, actualMissing,
    difficultyMissing.
  rewrite missingFields_nonempty.
  destruct (hasPBI ToLower issue), (hasSBI ToLower issue),
    (Size issue <? 0)%float, (EstimatedTime issue <? 0)%float,
    (ActualTime issue <? 0)%float, (hasDifficultyLabel ToLower issue);
    reflexivity.
Qed.

Lemma sizeMessage_not_fieldsMessage issue :
  sizeMessage issue <> fieldsMessage issue.
Proof.
  unfold sizeMessage, fieldsMessage. intros H.
  do 2 apply append_inv_head in H. cbn in H. discriminate H.
Qed.

Lemma sizeMessage_not_difficultyMessage issue :
  sizeMessage issue <> difficultyMessage issue.
Proof.
  unfold sizeMessage, difficultyMessage. intros H.
  do 2 apply append_inv_head in H. discriminate H.
Qed.

Lemma hasPBI_withSize issue size :
  hasPBI ToLower (withSize issue size) = hasPBI ToLower issue.
Proof. reflexivity. Qed.

Lemma tail_withSize issue size :
  (if estimatedMissing ToLower (withSize issue size)
      || actualMissing ToLower (withSize issue size)
   then [fieldsMessage (withSize issue size)] else [])
    ++ (if difficultyMissing ToLower (withSize issue size)
        then [difficultyMessage (withSize issue size)] else [])
  = (if estimatedMissing ToLower issue || actualMissing ToLower issue
     then [fieldsMessage issue] else [])
      ++ (if difficultyMissing ToLower issue then [difficultyMessage issue] else []).
Proof. reflexivity. Qed.

(** The Size message is none of the other messages of the issue. *)
Lemma sizeMessage_not_in_rest issue :
  ~ In (sizeMessage issue)
       ((if estimatedMissing ToLower issue || actualMissing ToLower issue
         then [fieldsMessage issue] else [])
          ++ (if difficultyMissing ToLower issue
              then [difficultyMessage issue] else [])).
Proof.
  intros Hin. apply in_app_or in Hin as [Hin|Hin].
  - destruct (_ || _); [|destruct Hin].
    destruct Hin as [Hin|[]]. symmetry in Hin.
    now apply sizeMessage_not_fieldsMessage in Hin.
  - destruct (difficultyMissing ToLower issue); [|destruct Hin].
    destruct Hin as [Hin|[]]. symmetry in Hin.
    now apply sizeMessage_not_difficultyMessage in Hin.
Qed.
End ValidatorFacts.

Section ReasonFacts.
Variable ToLower : string -> string.

Lemma estimatedLabel_in_joined issue :
  (EstimatedTime issue <? 0)%float = true ->
  occursIn estimatedLabel (GoStrings.Join (missingFields issue) "と").
Proof.
  intros H. rewrite missingFields_cases, H.
  destruct (ActualTime issue <? 0)%float; cbn [app GoStrings.Join String.concat];
    auto with occurs.
Qed.

Lemma actualLabel_in_joined issue :
  (ActualTime issue <? 0)%float = true ->
  occursIn actualLabel (GoStrings.Join (missingFields issue) "と").
Proof.
  intros H. rewrite missingFields_cases, H.
  destruct (EstimatedTime issue <? 0)%float; cbn [app GoStrings.Join String.concat];
    auto with occurs.
Qed.

Lemma joined_in_sbiReason issue :
  occursIn (GoStrings.Join (missingFields issue) "と") (sbiReason issue).
Proof. unfold sbiReason. auto with occurs. Qed.

Lemma joined_in_fieldsMessage issue :
  occursIn (GoStrings.Join (missingFields issue) "と") (fieldsMessage issue).
Proof. unfold fieldsMessage. auto 6 with occurs. Qed.

Lemma sbiReason_nonempty issue : String.eqb (sbiReason issue) EmptyString = false.
Proof. reflexivity. Qed.

(** The reason of the report validator, by the clauses the issue triggers. *)
Lemma violationReason_cases issue :
  violationReason ToLower issue
  = let reason :=
      if estimatedMissing ToLower issue || actualMissing ToLower issue
      then sbiReason issue
      else if sizeMissing ToLower issue then pbiReason else EmptyString in
    if difficultyMissing ToLower issue
    then ((if negb (String.eqb reason EmptyString)
           then reason ++ "。また、" else reason) ++ difficultyReason)%string
    else reason.
Proof.
  unfold violationReason, sizeMissing, estimatedMissing, actualMissing,
    difficultyMissing.
  rewrite missingFields_nonempty.
  destruct (hasPBI ToLower issue), (hasSBI ToLower issue),
    (Size issue <? 0)%float, (EstimatedTime issue <? 0)%float,
    (ActualTime issue <? 0)%float, (hasDifficultyLabel ToLower issue);
    reflexivity.
Qed.

Lemma violationReason_empty issue :
  String.eqb (violationReason ToLower issue) EmptyString
  = negb (sizeMissing ToLower issue || estimatedMissing ToLower issue
          || actualMissing ToLower issue || difficultyMissing ToLower issue).
Proof.
  rewrite violationReason_cases.
  destruct (sizeMissing ToLower issue), (estimatedMissing ToLower issue),
    (actualMissing ToLower issue), (difficultyMissing ToLower issue);
    reflexivity.
Qed.

Lemma difficultyReason_kept issue :
  difficultyMissing ToLower issue = true ->
  occursIn difficultyReason (violationReason ToLower issue).
Proof.
  intros H. rewrite violationReason_cases, H. cbv zeta. auto with occurs.
Qed.

Lemma sbiReason_kept issue :
  estimatedMissing ToLower issue || actualMissing ToLower issue = true ->
  occursIn (sbiReason issue) (violationReason ToLower issue).
Proof.
  intros H. rewrite violationReason_cases, H. cbv zeta.
  rewrite sbiReason_nonempty. cbn [negb].
  destruct (difficultyMissing ToLower issue); auto with occurs.
Qed.

Lemma pbiReason_kept issue :
  sizeMissing ToLower issue = true ->
  estimatedMissing ToLower issue = false ->
  actualMissing ToLower issue = false ->
  occursIn pbiReason (violationReason ToLower issue).
Proof.
  intros Hs He Ha. rewrite violationReason_cases, Hs, He, Ha. cbv zeta.
  cbn [orb negb String.eqb pbiReason].
  destruct (difficultyMissing ToLower issue); auto with occurs.
Qed.

Lemma ownViolation_reason issue v :
  ownViolation ToLower issue = Some v -> vReason v = violationReason ToLower issue.
Proof.
  unfold ownViolation. destruct (negb _); [|discriminate].
  intros H. injection H as <-. reflexivity.
Qed.

Lemma ownViolation_none issue :
  ownViolation ToLower issue = None
  <-> sizeMissing ToLower issue || estimatedMissing ToLower issue
      || actualMissing ToLower issue || difficultyMissing ToLower issue = false.
Proof.
  unfold ownViolation. rewrite violationReason_empty, negb_involutive.
  destruct (_ || _); split; congruence.
Qed.
End ReasonFacts.

(** * Facts about the family builder *)

Section MonadFacts.
Context {A B : Type}.

Lemma post_ret (a : A) (Q : A -> Prop) : Q a -> post (ret a) Q.
Proof. intros H. exact H. Qed.

Lemma post_bind (m : M A) (k : A -> M B) (Q1 : A -> Prop) (Q2 : B -> Prop) :
  post m Q1 -> (forall a, Q1 a -> post (k a) Q2) -> post (bind m k) Q2.
Proof.
  unfold post, bind. destruct m as [t [a| |]]; cbn; intros Hm Hk; try exact I.
  specialize (Hk a Hm). destruct (k a) as [t' o]. exact Hk.
Qed.

Lemma post_weaken (m : M A) (Q1 Q2 : A -> Prop) :
  post m Q1 -> (forall a, Q1 a -> Q2 a) -> post m Q2.
Proof.
  unfold post. destruct (snd m); auto.
Qed.

Lemma post_true (m : M A) : post m (fun _ => True).
Proof. destruct m as [t [a| |]]; exact I. Qed.

Lemma ends_ret (a : A) : ends (ret a).
Proof. discriminate. Qed.

Lemma ends_bind (m : M A) (k : A -> M B) :
  ends m -> (forall a, ends (k a)) -> ends (bind m k).
Proof.
  unfold ends, bind. destruct m as [t [a| |]]; cbn; intros Hm Hk;
    try discriminate; [|contradiction].
  specialize (Hk a). destruct (k a) as [t' o]. exact Hk.
Qed.

Lemma bind_returned (t : list Event) (a : A) (k : A -> M B) :
  bind (t, Returned a) k = (t ++ fst (k a), snd (k a)).
Proof. cbn. destruct (k a). reflexivity. Qed.
End MonadFacts.

Lemma post_emit (e : Event) (Q : unit -> Prop) : Q tt -> post (emit e) Q.
Proof. intros H. exact H. Qed.

Lemma ends_emit (e : Event) : ends (emit e).
Proof. discriminate. Qed.

Create HintDb builder.
#[local] Hint Resolve ends_ret ends_emit post_ret post_emit : builder.

(** Enter [fetchSubIssuesRecursively] and split on its depth test. *)
Ltac depth_test depth maxDepth :=
  cbn [fetchSubIssuesRecursively];
  destruct (Z.geb_spec depth maxDepth) as [Hge|Hlt].

Section BuilderFacts.
Variable time_Parse : string -> option GoTime.
Variable client : GraphQLClient.

(** *** The calls end *)

Lemma processEdge_ends recur depth subIssue :
  (forall url, ends (recur url (wrapInt (depth + 1)))) ->
  ends (processEdge time_Parse recur depth subIssue).
Proof.
  intros Hrec. unfold processEdge.
  destruct (negb _); [apply ends_bind; auto with builder|].
  destruct (time_Parse (Node.CreatedAt subIssue));
    [|apply ends_bind; auto with builder].
  destruct (parseClosedAt time_Parse (Node.ClosedAt subIssue));
    [|apply ends_bind; auto with builder].
  apply ends_bind; [auto with builder|]. intros _.
  apply ends_bind; [apply Hrec|]. intros [ch|err]; [auto with builder|].
  apply ends_bind; auto with builder.
Qed.

Lemma processEdges_ends recur depth edges :
  (forall url, ends (recur url (wrapInt (depth + 1)))) ->
  forall acc, ends (processEdges time_Parse recur depth edges acc).
Proof.
  intros Hrec. induction edges as [|subIssue rest IH]; intros acc; cbn.
  - auto with builder.
  - apply ends_bind; [now apply processEdge_ends|]. intros o. apply IH.
Qed.

Lemma pageLoop_ends recur depth owner repo issueNumber :
  (forall url, ends (recur url (wrapInt (depth + 1)))) ->
  forall pageFuel cursor acc,
    pagesEnd client owner repo issueNumber pageFuel cursor = true ->
    ends (pageLoop time_Parse client recur pageFuel owner repo issueNumber
                   depth cursor acc).
Proof.
  intros Hrec. induction pageFuel as [|n IH]; intros cursor acc Hp; cbn in Hp.
  - discriminate.
  - cbn [pageLoop]. apply ends_bind; [auto with builder|]. intros _.
    destruct (client owner repo issueNumber _) as [message|response];
      [auto with builder|].
    apply ends_bind; [now apply processEdges_ends|]. intros all.
    destruct (negb (HasNextPage response)); [auto with builder|].
    destruct (EndCursor response) as [next|]; [now apply IH|discriminate].
Qed.

Lemma fetch_ends pageFuel maxDepth :
  paginationBounded client pageFuel ->
  maxDepth < 2 ^ 63 ->
  forall fuel issueURL depth,
    - 2 ^ 63 <= depth ->
    maxDepth - depth <= Z.of_nat fuel ->
    ends (fetchSubIssuesRecursively time_Parse client fuel pageFuel issueURL
                                    depth maxDepth).
Proof.
  intros Hpages Hmax. induction fuel as [|fuel IH]; intros issueURL depth Hlo Hfuel;
    depth_test depth maxDepth;
    try (apply ends_bind; auto with builder);
    try lia.
  destruct (issueKey issueURL) as [[[owner repo] issueNumber]|err];
    [|auto with builder].
  apply pageLoop_ends; [|apply Hpages].
  intros url. rewrite wrapInt_small by (unfold is_int; lia).
  apply IH; lia.
Qed.
End BuilderFacts.

Section BuilderInvariants.
Variable time_Parse : string -> option GoTime.
Variable client : GraphQLClient.

(** [R] holds of every issue the loops append when it holds of a
    completed sub-issue without children and is kept when the children
    the recursive call returned are attached. *)
Variable R : IssueTimeInfo -> Prop.
Variable Rsub : list IssueTimeInfo -> Prop.
Hypothesis R_leaf : forall subIssue createdAt closedAt,
    isCompleted subIssue = true -> R (subIssueInfo subIssue createdAt closedAt).
Hypothesis R_node : forall subIssue createdAt closedAt childIssues,
    isCompleted subIssue = true -> Rsub childIssues ->
    R (withSubIssues (subIssueInfo subIssue createdAt closedAt) childIssues).

Variable recur : string -> Z -> M (GoResult (list IssueTimeInfo)).
Variable depth : Z.
Hypothesis recur_post : forall url,
    post (recur url (wrapInt (depth + 1))) (onOk Rsub).

Lemma processEdge_post subIssue :
  post (processEdge time_Parse recur depth subIssue)
       (fun o => match o with Some info => R info | None => True end).
Proof.
  unfold processEdge.
  destruct (negb _) eqn:Hc; [exact I|].
  apply negb_false_iff in Hc. fold (isCompleted subIssue) in Hc.
  destruct (time_Parse (Node.CreatedAt subIssue)) as [createdAt|]; [|exact I].
  destruct (parseClosedAt time_Parse (Node.ClosedAt subIssue))
    as [closedAt|]; [|exact I].
  apply post_bind with (Q1 := fun _ => True); [exact I|]. intros _ _.
  eapply post_bind; [apply recur_post|]. intros [childIssues|err] Hr.
  - apply post_ret. now apply R_node.
  - apply post_bind with (Q1 := fun _ => True); [exact I|]. intros _ _.
    apply post_ret. now apply R_leaf.
Qed.

Lemma processEdges_post edges :
  forall acc, Forall R acc ->
    post (processEdges time_Parse recur depth edges acc) (Forall R).
Proof.
  induction edges as [|subIssue rest IH]; intros acc Hacc; cbn [processEdges].
  - now apply post_ret.
  - eapply post_bind; [apply processEdge_post|]. intros [info|] Hinfo; apply IH.
    + apply Forall_app. split; [exact Hacc|]. now constructor.
    + exact Hacc.
Qed.

Lemma pageLoop_post owner repo issueNumber :
  forall pageFuel cursor acc, Forall R acc ->
    post (pageLoop time_Parse client recur pageFuel owner repo issueNumber
                   depth cursor acc)
         (onOk (Forall R)).
Proof.
  induction pageFuel as [|n IH]; intros cursor acc Hacc; [exact I|].
  cbn [pageLoop]. apply post_bind with (Q1 := fun _ => True); [exact I|]. intros _ _.
  destruct (client owner repo issueNumber _) as [message|response].
  - apply post_ret. exact I.
  - eapply post_bind; [now apply processEdges_post|]. intros all Hall.
    destruct (negb (HasNextPage response)); [now apply post_ret|].
    destruct (EndCursor response) as [next|]; [now apply IH|exact I].
Qed.
End BuilderInvariants.

Section TreeFacts.

Lemma issueAll_unfold P issue :
  issueAll P issue <-> P issue /\ Forall (issueAll P) (SubIssues issue).
Proof.
  destruct issue as [u t a asg c cl s sr e ac sz lb hp subs]. cbn.
  enough (H : fold_right (fun sub rest => issueAll P sub /\ rest) True subs
              <-> Forall (issueAll P) subs) by now rewrite H.
  induction subs as [|sub rest IH]; cbn.
  - split; auto.
  - rewrite IH. split.
    + intros [H1 H2]. now constructor.
    + intros H. inversion H; subst. now split.
Qed.

Lemma forestAll_Forall P l : forestAll P l <-> Forall (issueAll P) l.
Proof.
  unfold forestAll. induction l as [|sub rest IH]; cbn.
  - split; auto.
  - rewrite IH. split.
    + intros [H1 H2]. now constructor.
    + intros H. inversion H; subst. now split.
Qed.

Lemma issueHeight_unfold issue :
  issueHeight issue = S (forestHeight (SubIssues issue)).
Proof. destruct issue; reflexivity. Qed.

Lemma forestHeight_le l (k : nat) :
  (forestHeight l <= k)%nat <-> Forall (fun issue => (issueHeight issue <= k)%nat) l.
Proof.
  unfold forestHeight. induction l as [|sub rest IH]; cbn.
  - split; [constructor|lia].
  - split.
    + intros H. constructor; [lia|]. apply IH. lia.
    + intros H. inversion H; subst. apply IH in H3. lia.
Qed.
End TreeFacts.

Section FetchFacts.
Variable time_Parse : string -> option GoTime.
Variable client : GraphQLClient.

Lemma fetch_completed pageFuel maxDepth :
  forall fuel issueURL depth,
    post (fetchSubIssuesRecursively time_Parse client fuel pageFuel issueURL
                                    depth maxDepth)
         (onOk (Forall (issueAll completed))).
Proof.
  induction fuel as [|fuel IH]; intros issueURL depth;
    cbn [fetchSubIssuesRecursively];
    (destruct (depth >=? maxDepth)%Z; [cbn; constructor|]);
    (destruct (issueKey issueURL) as [[[owner repo] issueNumber]|err];
     [|exact I]);
    [exact I|].
  apply pageLoop_post with (Rsub := Forall (issueAll completed));
    [| |intros url; apply IH|constructor].
  - intros subIssue createdAt closedAt Hc. apply issueAll_unfold.
    unfold isCompleted in Hc. apply andb_prop in Hc as [Hs Hr].
    apply String.eqb_eq in Hs, Hr.
    unfold subIssueInfo. destruct (customFields _) as [[e a] s].
    cbn. repeat split; auto.
  - intros subIssue createdAt closedAt childIssues Hc Hch. apply issueAll_unfold.
    unfold isCompleted in Hc. apply andb_prop in Hc as [Hs Hr].
    apply String.eqb_eq in Hs, Hr.
    unfold subIssueInfo. destruct (customFields _) as [[e a] s].
    cbn. repeat split; auto.
Qed.

Lemma fetch_height pageFuel maxDepth :
  (maxDepth < 2 ^ 63)%Z ->
  forall fuel issueURL depth,
    (- 2 ^ 63 <= depth)%Z ->
    post (fetchSubIssuesRecursively time_Parse client fuel pageFuel issueURL
                                    depth maxDepth)
         (onOk (fun l => (forestHeight l <= Z.to_nat (maxDepth - depth))%nat)).
Proof.
  intros Hmax.
  induction fuel as [|fuel IH]; intros issueURL depth Hlo;
    cbn [fetchSubIssuesRecursively];
    (destruct (Z.geb_spec depth maxDepth) as [Hge|Hlt]; [cbn; lia|]);
    (destruct (issueKey issueURL) as [[[owner repo] issueNumber]|err];
     [|exact I]);
    [exact I|].
  eapply post_weaken.
  - apply pageLoop_post
      with (R := fun issue => (issueHeight issue <= Z.to_nat (maxDepth - depth))%nat)
           (Rsub := fun l => (forestHeight l <= Z.to_nat (maxDepth - (depth + 1)))%nat);
      [| | |constructor].
    + intros subIssue createdAt closedAt _.
      unfold subIssueInfo. destruct (customFields _) as [[e a] s]. cbn. lia.
    + intros subIssue createdAt closedAt childIssues _ Hch.
      rewrite issueHeight_unfold. cbn [withSubIssues SubIssues]. lia.
    + intros url. rewrite wrapInt_small by (unfold is_int; lia).
      apply IH. lia.
  - intros [l|err]; cbn; [|auto]. apply forestHeight_le.
Qed.
End FetchFacts.

Section ErrorFacts.
Variable time_Parse : string -> option GoTime.
Variable client : GraphQLClient.

Lemma withTrace_bind {A B : Type} (t : list Event) (a : A) (k : A -> M B) :
  bind (t, Returned a) k = withTrace t (k a).
Proof. apply bind_returned. Qed.

Lemma processEdge_skipped recur depth subIssue :
  isCompleted subIssue = false ->
  processEdge time_Parse recur depth subIssue
  = ([LogSkipping (Node.Number subIssue) (Node.State subIssue)
                  (match Node.StateReason subIssue with
                   | Some r => r
                   | None => EmptyString
                   end)],
     Returned None).
Proof.
  intros Hc. unfold processEdge, isCompleted in *. cbv zeta in *.
  rewrite Hc. reflexivity.
Qed.

(** What [processEdge] does with a completed sub-issue whose times parse:
    it depends on the recursive call alone. *)
Lemma processEdge_kept recur depth subIssue createdAtUTC closedAt :
  isCompleted subIssue = true ->
  time_Parse (Node.CreatedAt subIssue) = Some createdAtUTC ->
  parseClosedAt time_Parse (Node.ClosedAt subIssue) = Some closedAt ->
  processEdge time_Parse recur depth subIssue
  = (emit (LogFetching (Node.Number subIssue) (wrapInt (depth + 1))) ;;;
     r <- recur (Node.URL subIssue) (wrapInt (depth + 1)) ;;
     match r with
     | Err err =>
         emit (LogWarningFetch (Node.Number subIssue) err) ;;;
         ret (Some (subIssueInfo subIssue (In_jst createdAtUTC) closedAt))
     | Ok childIssues =>
         ret (Some (withSubIssues
                      (subIssueInfo subIssue (In_jst createdAtUTC) closedAt)
                      childIssues))
     end).
Proof.
  intros Hc Hcreated Hclosed. unfold processEdge, isCompleted in *.
  cbv zeta in *. rewrite Hc, Hcreated, Hclosed. reflexivity.
Qed.

Lemma processEdge_fetch_error recur depth subIssue createdAtUTC closedAt trace err :
  isCompleted subIssue = true ->
  time_Parse (Node.CreatedAt subIssue) = Some createdAtUTC ->
  parseClosedAt time_Parse (Node.ClosedAt subIssue) = Some closedAt ->
  recur (Node.URL subIssue) (wrapInt (depth + 1)) = (trace, Returned (Err err)) ->
  processEdge time_Parse recur depth subIssue
  = (LogFetching (Node.Number subIssue) (wrapInt (depth + 1))
       :: trace ++ [LogWarningFetch (Node.Number subIssue) err],
     Returned (Some (subIssueInfo subIssue (In_jst createdAtUTC) closedAt))).
Proof.
  intros Hc Hcreated Hclosed Hrec.
  rewrite (processEdge_kept _ _ _ _ _ Hc Hcreated Hclosed), Hrec. reflexivity.
Qed.

Lemma subIssueInfo_leaf subIssue createdAt closedAt :
  SubIssues (subIssueInfo subIssue createdAt closedAt) = [].
Proof. unfold subIssueInfo. destruct (customFields _) as [[e a] s]. reflexivity. Qed.

Lemma subIssueInfo_URL subIssue createdAt closedAt :
  IssueURL (subIssueInfo subIssue createdAt closedAt) = Node.URL subIssue.
Proof. unfold subIssueInfo. destruct (customFields _) as [[e a] s]. reflexivity. Qed.

Lemma fetch_at_maxDepth fuel pageFuel issueURL depth maxDepth :
  maxDepth <= depth ->
  fetchSubIssuesRecursively time_Parse client fuel pageFuel issueURL depth maxDepth
  = ([LogReachedMaxDepth maxDepth issueURL], Returned (Ok [])).
Proof.
  intros H. destruct fuel; cbn [fetchSubIssuesRecursively];
    destruct (Z.geb_spec depth maxDepth); try lia; reflexivity.
Qed.

Lemma enrichLoop_roots fuel pageFuel maxDepth topLevelIssues :
  post (enrichLoop time_Parse client fuel pageFuel topLevelIssues maxDepth)
       (Forall2 (fun topIssue enriched =>
                   exists subIssues, enriched = withSubIssues topIssue subIssues)
                topLevelIssues).
Proof.
  induction topLevelIssues as [|topIssue rest IH]; cbn [enrichLoop].
  - apply post_ret. constructor.
  - apply post_bind with (Q1 := fun _ => True); [exact I|]. intros _ _.
    apply post_bind with (Q1 := fun _ => True); [apply post_true|].
    intros r _.
    apply post_bind with (Q1 := fun _ => True); [apply post_true|].
    intros subIssues _.
    eapply post_bind; [exact IH|]. intros enriched Henriched.
    apply post_ret. constructor; [now exists subIssues|exact Henriched].
Qed.

Lemma enrichLoop_depth_exhausted fuel pageFuel maxDepth topLevelIssues :
  maxDepth <= 0 ->
  enrichLoop time_Parse client fuel pageFuel topLevelIssues maxDepth
  = (flat_map
       (fun topIssue =>
          [LogTopLevelFetching (getIssueNumberFromURL (IssueURL topIssue))
                               (Title topIssue);
           LogReachedMaxDepth maxDepth (IssueURL topIssue)])
       topLevelIssues,
     Returned (map (fun topIssue => withSubIssues topIssue []) topLevelIssues)).
Proof.
  intros H. induction topLevelIssues as [|topIssue rest IH]; cbn [enrichLoop].
  - reflexivity.
  - rewrite fetch_at_maxDepth by exact H. rewrite IH.
    unfold bind, emit, ret. cbn [app flat_map map].
    now rewrite app_nil_r.
Qed.
End ErrorFacts.

Section ReturnFacts.
Context {A B : Type}.

Lemma returned_bind (m : M A) (k : A -> M B) (b : B) :
  snd (bind m k) = Returned b ->
  exists a, snd m = Returned a /\ snd (k a) = Returned b.
Proof.
  unfold bind. destruct m as [t [a| |]]; cbn; try discriminate.
  intros H. exists a. split; [reflexivity|]. destruct (k a). exact H.
Qed.

Lemma post_self (m : M A) : post m (fun a => snd m = Returned a).
Proof. unfold post. destruct (snd m); auto. Qed.
End ReturnFacts.

Section KeptFacts.
Variable time_Parse : string -> option GoTime.
Variable recur : string -> Z -> M (GoResult (list IssueTimeInfo)).
Variable depth : Z.

Lemma processEdges_incl edges :
  forall acc,
    post (processEdges time_Parse recur depth edges acc)
         (fun l => forall info, In info acc -> In info l).
Proof.
  induction edges as [|subIssue rest IH]; intros acc; cbn [processEdges].
  - apply post_ret. auto.
  - apply post_bind with (Q1 := fun _ => True); [apply post_true|].
    intros o _. eapply post_weaken; [apply IH|].
    intros l Hl info Hin. apply Hl.
    destruct o; [apply in_or_app; now left|exact Hin].
Qed.

(** When the loop over a page returns, the body returned for every edge of
    the page, and what it appended is in the result. *)
Lemma processEdges_returns a edges :
  In a edges ->
  forall acc,
    post (processEdges time_Parse recur depth edges acc)
         (fun l => exists o,
              snd (processEdge time_Parse recur depth a) = Returned o
              /\ forall info, o = Some info -> In info l).
Proof.
  induction edges as [|subIssue rest IH]; intros Hin acc; [destruct Hin|].
  cbn [processEdges]. destruct Hin as [->|Hin].
  - eapply post_bind; [apply post_self|]. intros o Ho.
    eapply post_weaken; [apply processEdges_incl|].
    intros l Hl. exists o. split; [exact Ho|].
    intros info ->. apply Hl, in_or_app. right. now left.
  - apply post_bind with (Q1 := fun _ => True); [apply post_true|].
    intros o _. now apply IH.
Qed.

Lemma processEdge_kept_returns a createdAtUTC closedAt o :
  isCompleted a = true ->
  time_Parse (Node.CreatedAt a) = Some createdAtUTC ->
  parseClosedAt time_Parse (Node.ClosedAt a) = Some closedAt ->
  snd (processEdge time_Parse recur depth a) = Returned o ->
  exists r,
    snd (recur (Node.URL a) (wrapInt (depth + 1))) = Returned r
    /\ o = Some (match r with
                 | Ok childIssues =>
                     withSubIssues (subIssueInfo a (In_jst createdAtUTC) closedAt)
                                   childIssues
                 | Err _ => subIssueInfo a (In_jst createdAtUTC) closedAt
                 end).
Proof.
  intros Hc Hcreated Hclosed.
  rewrite (processEdge_kept _ _ _ _ _ _ Hc Hcreated Hclosed). intros H.
  apply returned_bind in H as (u & _ & H).
  apply returned_bind in H as (r & Hr & H).
  exists r. split; [exact Hr|].
  destruct r as [childIssues|err]; cbn in H; congruence.
Qed.
End KeptFacts.

(** A page of sub-issues that lists the issue itself. *)
Section SelfCycle.
Variable time_Parse : string -> option GoTime.
Variable client : GraphQLClient.
Variables (issueURL owner repo : string) (issueNumber : Z).
Variable response : SubIssueQueryResponse.
Variable a : Node.t.
Variables (createdAtUTC : GoTime) (closedAt : option GoTime).

Hypothesis Hkey : issueKey issueURL = Ok (owner, repo, issueNumber).
Hypothesis Hpage : client owner repo issueNumber None = inr response.
Hypothesis Hlast : HasNextPage response = false.
Hypothesis Hin : In a (Edges response).
Hypothesis Hurl : Node.URL a = issueURL.
Hypothesis Hcompleted : isCompleted a = true.
Hypothesis Hcreated : time_Parse (Node.CreatedAt a) = Some createdAtUTC.
Hypothesis Hclosed : parseClosedAt time_Parse (Node.ClosedAt a) = Some closedAt.

Variable maxDepth : Z.
Hypothesis Hmax : maxDepth < 2 ^ 63.

Lemma fetch_single_page fuel pageFuel depth :
  depth < maxDepth ->
  fetchSubIssuesRecursively time_Parse client (S fuel) (S pageFuel) issueURL
                            depth maxDepth
  = (emit (Request owner repo issueNumber None) ;;;
     all <- processEdges time_Parse
              (fun url d => fetchSubIssuesRecursively time_Parse client fuel
                              (S pageFuel) url d maxDepth)
              depth (Edges response) [] ;;
     ret (Ok all)).
Proof.
  intros Hlt. cbn [fetchSubIssuesRecursively pageLoop].
  destruct (Z.geb_spec depth maxDepth); [lia|].
  rewrite Hkey. cbn [String.eqb negb]. rewrite Hpage, Hlast. reflexivity.
Qed.

Lemma withSubIssues_URL issue subs :
  IssueURL (withSubIssues issue subs) = IssueURL issue.
Proof. reflexivity. Qed.

(** Below the depth bound the call never returns an error, and what it
    returns lists the issue. *)
Lemma fetch_lists_itself fuel pageFuel depth :
  depth < maxDepth ->
  post (fetchSubIssuesRecursively time_Parse client fuel pageFuel issueURL
                                  depth maxDepth)
       (fun r => exists l, r = Ok l /\ listsItself issueURL l).
Proof.
  intros Hlt. destruct fuel as [|fuel].
  { unfold post. cbn [fetchSubIssuesRecursively].
    destruct (Z.geb_spec depth maxDepth); [lia|]. rewrite Hkey. exact I. }
  destruct pageFuel as [|p].
  { unfold post. cbn [fetchSubIssuesRecursively pageLoop].
    destruct (Z.geb_spec depth maxDepth); [lia|]. rewrite Hkey. exact I. }
  unfold post.
  destruct (snd (fetchSubIssuesRecursively _ _ _ _ _ _ _)) as [r| |] eqn:E;
    try exact I.
  rewrite fetch_single_page in E by exact Hlt.
  apply returned_bind in E as (u & _ & E).
  apply returned_bind in E as (all & Hall & E).
  cbn in E. injection E as <-. exists all. split; [reflexivity|].
  pose proof (processEdges_returns time_Parse
                (fun url d => fetchSubIssuesRecursively time_Parse client fuel
                                (S p) url d maxDepth)
                depth a (Edges response) Hin []) as Hret.
  unfold post in Hret. rewrite Hall in Hret. destruct Hret as (o & Ho & Hkept).
  apply (processEdge_kept_returns _ _ _ _ _ _ _ Hcompleted Hcreated Hclosed)
    in Ho as (r & _ & ->).
  eexists. split; [apply Hkept; reflexivity|].
  destruct r; [rewrite withSubIssues_URL|]; rewrite subIssueInfo_URL; exact Hurl.
Qed.

(** With two levels left, the issue is in the tree as its own child. *)
Lemma fetch_keeps_repeated_node fuel pageFuel depth :
  - 2 ^ 63 <= depth ->
  depth + 2 <= maxDepth ->
  post (fetchSubIssuesRecursively time_Parse client fuel pageFuel issueURL
                                  depth maxDepth)
       (onOk (fun l => exists issue,
                  In issue l /\ IssueURL issue = issueURL
                  /\ listsItself issueURL (SubIssues issue))).
Proof.
  intros Hlo Hdeep. destruct fuel as [|fuel].
  { unfold post. cbn [fetchSubIssuesRecursively].
    destruct (Z.geb_spec depth maxDepth); [lia|]. rewrite Hkey. exact I. }
  destruct pageFuel as [|p].
  { unfold post. cbn [fetchSubIssuesRecursively pageLoop].
    destruct (Z.geb_spec depth maxDepth); [lia|]. rewrite Hkey. exact I. }
  unfold post.
  destruct (snd (fetchSubIssuesRecursively _ _ _ _ _ _ _)) as [r| |] eqn:E;
    try exact I.
  rewrite fetch_single_page in E by lia.
  apply returned_bind in E as (u & _ & E).
  apply returned_bind in E as (all & Hall & E).
  cbn in E. injection E as <-. cbn [onOk].
  pose proof (processEdges_returns time_Parse
                (fun url d => fetchSubIssuesRecursively time_Parse client fuel
                                (S p) url d maxDepth)
                depth a (Edges response) Hin []) as Hret.
  unfold post in Hret. rewrite Hall in Hret. destruct Hret as (o & Ho & Hkept).
  apply (processEdge_kept_returns _ _ _ _ _ _ _ Hcompleted Hcreated Hclosed)
    in Ho as (r & Hr & ->).
  rewrite Hurl, wrapInt_small in Hr by (unfold is_int; lia).
  pose proof (fetch_lists_itself fuel (S p) (depth + 1) ltac:(lia)) as Hinner.
  unfold post in Hinner. rewrite Hr in Hinner.
  destruct Hinner as (l & -> & Hl).
  eexists. split; [apply Hkept; reflexivity|].
  split; [rewrite withSubIssues_URL, subIssueInfo_URL; exact Hurl|exact Hl].
Qed.
End SelfCycle.

Section ReturnsFacts.
Context {A B : Type}.

Lemma returns_ret (a : A) : returns (ret a).
Proof. now exists a. Qed.

Lemma returns_bind (m : M A) (k : A -> M B) :
  returns m -> (forall a, returns (k a)) -> returns (bind m k).
Proof.
  intros [a Ha] Hk. destruct m as [t o]. cbn in Ha. subst o.
  rewrite bind_returned. destruct (Hk a) as [b Hb]. now exists b.
Qed.
End ReturnsFacts.

Lemma returns_emit (e : Event) : returns (emit e).
Proof. now exists tt. Qed.

#[local] Hint Resolve returns_ret returns_emit : builder.

(** With pages that end and cursors that are there, every call returns:
    an error of the transport is a value the caller handles. *)
Section Totality.
Variable time_Parse : string -> option GoTime.
Variable client : GraphQLClient.
Hypothesis Hcursors : cursorsPresent client.

Lemma processEdge_total recur depth subIssue :
  (forall url, returns (recur url (wrapInt (depth + 1)))) ->
  returns (processEdge time_Parse recur depth subIssue).
Proof.
  intros Hrec. unfold processEdge.
  destruct (negb _); [apply returns_bind; auto with builder|].
  destruct (time_Parse (Node.CreatedAt subIssue));
    [|apply returns_bind; auto with builder].
  destruct (parseClosedAt time_Parse (Node.ClosedAt subIssue));
    [|apply returns_bind; auto with builder].
  apply returns_bind; [auto with builder|]. intros _.
  apply returns_bind; [apply Hrec|]. intros [childIssues|err]; [auto with builder|].
  apply returns_bind; auto with builder.
Qed.

Lemma processEdges_total recur depth edges :
  (forall url, returns (recur url (wrapInt (depth + 1)))) ->
  forall acc, returns (processEdges time_Parse recur depth edges acc).
Proof.
  intros Hrec. induction edges as [|subIssue rest IH]; intros acc;
    cbn [processEdges]; [auto with builder|].
  apply returns_bind; [now apply processEdge_total|]. intros o. apply IH.
Qed.

Lemma pageLoop_total recur depth owner repo issueNumber :
  (forall url, returns (recur url (wrapInt (depth + 1)))) ->
  forall pageFuel cursor acc,
    pagesEnd client owner repo issueNumber pageFuel cursor = true ->
    returns (pageLoop time_Parse client recur pageFuel owner repo issueNumber
                      depth cursor acc).
Proof.
  intros Hrec. induction pageFuel as [|n IH]; intros cursor acc Hp; cbn in Hp;
    [discriminate|].
  cbn [pageLoop]. apply returns_bind; [auto with builder|]. intros _.
  destruct (client owner repo issueNumber _) as [message|response] eqn:Hpage;
    [auto with builder|].
  apply returns_bind; [now apply processEdges_total|]. intros all.
  destruct (HasNextPage response) eqn:Hnext; cbn [negb] in *; [|auto with builder].
  destruct (EndCursor response) as [next|] eqn:Hcur; [now apply IH|].
  now destruct (Hcursors _ _ _ _ _ Hpage Hnext).
Qed.

Lemma fetch_total pageFuel maxDepth :
  paginationBounded client pageFuel ->
  maxDepth < 2 ^ 63 ->
  forall fuel issueURL depth,
    - 2 ^ 63 <= depth ->
    maxDepth - depth <= Z.of_nat fuel ->
    returns (fetchSubIssuesRecursively time_Parse client fuel pageFuel issueURL
                                       depth maxDepth).
Proof.
  intros Hpages Hmax. induction fuel as [|fuel IH]; intros issueURL depth Hlo Hfuel;
    depth_test depth maxDepth;
    try (apply returns_bind; auto with builder);
    try lia.
  destruct (issueKey issueURL) as [[[owner repo] issueNumber]|err];
    [|auto with builder].
  apply pageLoop_total; [|apply Hpages].
  intros url. rewrite wrapInt_small by (unfold is_int; lia).
  apply IH; lia.
Qed.

Lemma enrichLoop_total fuel pageFuel maxDepth topLevelIssues :
  paginationBounded client pageFuel ->
  maxDepth < 2 ^ 63 ->
  maxDepth <= Z.of_nat fuel ->
  returns (enrichLoop time_Parse client fuel pageFuel topLevelIssues maxDepth).
Proof.
  intros Hpages Hmax Hfuel.
  induction topLevelIssues as [|topIssue rest IH]; cbn [enrichLoop];
    [auto with builder|].
  apply returns_bind; [auto with builder|]. intros _.
  apply returns_bind; [apply fetch_total; auto; lia|]. intros r.
  apply returns_bind.
  - destruct r; [auto with builder|]. apply returns_bind; auto with builder.
  - intros subIssues. apply returns_bind; [exact IH|]. auto with builder.
Qed.
End Totality.

(** * The family builder: what it guarantees *)

(** C1.  Every issue of the tree [fetchSubIssuesRecursively] builds is CLOSED
    with the reason COMPLETED.  A child that fails the test is skipped with
    one log line, whatever the recursive call would do: no request is sent
    for it, so nothing below it is fetched, and the loop goes on with its
    siblings.  Below issue 1 with the open child 2 (itself the parent of the
    completed issue 4) and the completed child 3, the tree is issue 3 alone
    and the requests are those for 1 and 3. *)
Theorem C1_only_completed_children_are_built :
  (forall time_Parse client fuel pageFuel issueURL depth maxDepth,
      post (fetchSubIssuesRecursively time_Parse client fuel pageFuel issueURL
                                      depth maxDepth)
           (onOk (forestAll completed)))
  /\ (forall time_Parse recur depth subIssue rest allSubIssues,
         isCompleted subIssue = false ->
         processEdges time_Parse recur depth (subIssue :: rest) allSubIssues
         = withTrace
             [LogSkipping (Node.Number subIssue) (Node.State subIssue)
                          (match Node.StateReason subIssue with
                           | Some r => r
                           | None => EmptyString
                           end)]
             (processEdges time_Parse recur depth rest allSubIssues))
  /\ (let built := fetchSubIssuesRecursively Examples.parseTime Examples.prunedClient
                     5 5 (Examples.urlOf "1") 0 5 in
      requests (fst built) = [Request "o" "r" 1 None; Request "o" "r" 3 None]
      /\ exists tree, snd built = Returned (Ok tree)
                      /\ forestURLs tree = [Examples.urlOf "3"]).
Proof.
  split.
  { intros. eapply post_weaken; [apply fetch_completed|].
    intros [l|err]; cbn; [|auto]. apply forestAll_Forall. }
  split.
  { intros time_Parse recur depth subIssue rest allSubIssues Hc.
    cbn [processEdges]. rewrite processEdge_skipped by exact Hc.
    rewrite withTrace_bind. reflexivity. }
  cbv zeta. split; [reflexivity|]. eexists. split; reflexivity.
Qed.

Lemma C1_witness :
  processEdges Examples.parseTime (fun _ _ => ([], OutOfFuel)) 0
               [Examples.openNode 2 "2"] []
  = ([LogSkipping 2 "OPEN" ""], Returned []).
Proof.
  exact (proj1 (proj2 C1_only_completed_children_are_built)
               Examples.parseTime (fun _ _ => ([], OutOfFuel)) 0
               (Examples.openNode 2 "2") [] [] eq_refl).
Defined.

(** C2 fails as stated.  When issue 1 is reported as its own sub-issue and
    the depth bound is 2, the builder ends, but issue 1 is in the tree it
    returns, with issue 1 as its child; the trace has the requests, the
    progress lines and the line of the depth bound, and no diagnostic of a
    cycle. *)
Lemma C2_counterexample :
  fst (fetchSubIssuesRecursively Examples.parseTime Examples.selfClient
         2 1 (Examples.urlOf "1") 0 2)
  = [Request "o" "r" 1 None; LogFetching 1 1;
     Request "o" "r" 1 None; LogFetching 1 2;
     LogReachedMaxDepth 2 (Examples.urlOf "1")]
  /\ exists tree,
      snd (fetchSubIssuesRecursively Examples.parseTime Examples.selfClient
             2 1 (Examples.urlOf "1") 0 2) = Returned (Ok tree)
      /\ forestURLs tree = [Examples.urlOf "1"; Examples.urlOf "1"].
Proof.
  split; [reflexivity|]. eexists. split; reflexivity.
Qed.

(** C2, as the code has it.  The builder keeps no set of visited issues;
    it ends because of the depth bound.  For every provider whose pages
    end, a node reported as its own descendant included, the call ends
    within [maxDepth - depth] nested calls (it returns, when no page
    announces a next page without its cursor), and the tree it returns has
    at most [maxDepth - depth] levels.  The repeated node is kept: when the page
    of sub-issues of an issue lists the issue itself as completed, and two
    levels are left, the issue is in the tree as its own child. *)
Theorem C2_cycles_end_at_the_depth_bound :
  forall time_Parse client fuel pageFuel issueURL depth maxDepth,
    paginationBounded client pageFuel ->
    - 2 ^ 63 <= depth ->
    maxDepth < 2 ^ 63 ->
    maxDepth - depth <= Z.of_nat fuel ->
    ends (fetchSubIssuesRecursively time_Parse client fuel pageFuel issueURL
                                    depth maxDepth)
    /\ (cursorsPresent client ->
        returns (fetchSubIssuesRecursively time_Parse client fuel pageFuel issueURL
                                           depth maxDepth))
    /\ post (fetchSubIssuesRecursively time_Parse client fuel pageFuel issueURL
                                       depth maxDepth)
            (onOk (fun tree => (forestHeight tree <= Z.to_nat (maxDepth - depth))%nat))
    /\ (forall owner repo issueNumber response a createdAtUTC closedAt,
           issueKey issueURL = Ok (owner, repo, issueNumber) ->
           client owner repo issueNumber None = inr response ->
           HasNextPage response = false ->
           In a (Edges response) ->
           Node.URL a = issueURL ->
           isCompleted a = true ->
           time_Parse (Node.CreatedAt a) = Some createdAtUTC ->
           parseClosedAt time_Parse (Node.ClosedAt a) = Some closedAt ->
           depth + 2 <= maxDepth ->
           post (fetchSubIssuesRecursively time_Parse client fuel pageFuel issueURL
                                           depth maxDepth)
                (onOk (fun tree =>
                         exists issue,
                           In issue tree /\ IssueURL issue = issueURL
                           /\ listsItself issueURL (SubIssues issue)))).
Proof.
  intros time_Parse client fuel pageFuel issueURL depth maxDepth Hpages Hlo Hmax Hfuel.
  split; [now apply fetch_ends|].
  split; [intros Hcursors; now apply fetch_total|].
  split; [now apply fetch_height|].
  intros owner repo issueNumber response a createdAtUTC closedAt
         Hkey Hpage Hlast Hin Hurl Hc Hcreated Hclosed Hdeep.
  eapply fetch_keeps_repeated_node; eauto.
Qed.

Lemma C2_witness :
  ends (fetchSubIssuesRecursively Examples.parseTime Examples.selfClient 2 1
                                  (Examples.urlOf "1") 0 2)
  /\ post (fetchSubIssuesRecursively Examples.parseTime Examples.selfClient 2 1
                                     (Examples.urlOf "1") 0 2)
          (onOk (fun tree =>
                   exists issue,
                     In issue tree /\ IssueURL issue = Examples.urlOf "1"
                     /\ listsItself (Examples.urlOf "1") (SubIssues issue))).
Proof.
  assert (Hpages : paginationBounded Examples.selfClient 1)
    by (intros owner repo issueNumber; reflexivity).
  destruct (C2_cycles_end_at_the_depth_bound
              Examples.parseTime Examples.selfClient 2 1 (Examples.urlOf "1") 0 2
              Hpages ltac:(lia) ltac:(lia) ltac:(lia)) as (Hends & _ & _ & Hkept).
  split; [exact Hends|].
  apply (Hkept "o"%string "r"%string 1
               {| Edges := [Examples.completedNode 1 "1"];
                  HasNextPage := false; EndCursor := None |}
               (Examples.completedNode 1 "1")
               {| unixSeconds := 0; zoneOffset := 0 |}
               (Some (In_jst {| unixSeconds := 0; zoneOffset := 0 |})));
    first [reflexivity | now left | lia].
Defined.

(** C3.  At depth [maxDepth] and beyond, [fetchSubIssuesRecursively] returns
    no sub-issue and sends no request; from depth [depth] it ends within
    [maxDepth - depth] nested calls when the pages end, and the tree it
    returns has at most [maxDepth - depth] levels.  With the depth bound 2
    and the completed chain root 1, child 2, grandchild 3, great-grandchild
    4, the family is root, child and grandchild, and the requests are those
    for the children of the root and of the child: none for the children of
    the grandchild, none for those of the great-grandchild. *)
Theorem C3_depth_bound :
  forall time_Parse client fuel pageFuel issueURL depth maxDepth,
    - 2 ^ 63 <= depth ->
    maxDepth < 2 ^ 63 ->
    (maxDepth <= depth ->
     fetchSubIssuesRecursively time_Parse client fuel pageFuel issueURL depth maxDepth
     = ([LogReachedMaxDepth maxDepth issueURL], Returned (Ok [])))
    /\ (paginationBounded client pageFuel ->
        maxDepth - depth <= Z.of_nat fuel ->
        ends (fetchSubIssuesRecursively time_Parse client fuel pageFuel issueURL
                                        depth maxDepth))
    /\ post (fetchSubIssuesRecursively time_Parse client fuel pageFuel issueURL
                                       depth maxDepth)
            (onOk (fun tree => (forestHeight tree <= Z.to_nat (maxDepth - depth))%nat))
    /\ (let built := enrichIssuesWithSubIssues Examples.parseTime Examples.chainClient
                       5 5 [Examples.rootIssue] 2 in
        requests (fst built) = [Request "o" "r" 1 None; Request "o" "r" 2 None]
        /\ exists family, snd built = Returned ([family], None)
                          /\ issueURLs family
                             = [Examples.urlOf "1"; Examples.urlOf "2";
                                Examples.urlOf "3"]).
Proof.
  intros time_Parse client fuel pageFuel issueURL depth maxDepth Hlo Hmax.
  split; [apply fetch_at_maxDepth|].
  split; [intros Hpages Hfuel; now apply fetch_ends|].
  split; [now apply fetch_height|].
  cbv zeta. split; [reflexivity|]. eexists. split; reflexivity.
Qed.

Lemma C3_witness :
  fetchSubIssuesRecursively Examples.parseTime Examples.chainClient 0 0
                            (Examples.urlOf "3") 2 2
  = ([LogReachedMaxDepth 2 (Examples.urlOf "3")], Returned (Ok [])).
Proof.
  refine (proj1 (C3_depth_bound Examples.parseTime Examples.chainClient 0 0
                                (Examples.urlOf "3") 2 2 _ _) _); lia.
Defined.



(** C9 fails as stated.  With the depth bound 0, and with the depth bound
    -1, [enrichIssuesWithSubIssues] reports no error: it returns the root
    without children. *)
Lemma C9_counterexample :
  enrichIssuesWithSubIssues Examples.parseTime Examples.chainClient 0 0
                            [Examples.rootIssue] 0
  = ([LogTopLevelFetching "1" "issue 1"; LogReachedMaxDepth 0 (Examples.urlOf "1")],
     Returned ([Examples.rootIssue], None))
  /\ enrichIssuesWithSubIssues Examples.parseTime Examples.chainClient 0 0
                               [Examples.rootIssue] (-1)
     = ([LogTopLevelFetching "1" "issue 1";
         LogReachedMaxDepth (-1) (Examples.urlOf "1")],
        Returned ([Examples.rootIssue], None)).
Proof. split; reflexivity. Qed.

(** C9, as the code has it.  The depth bound is no parameter of the run:
    [main] passes the constant 5.  [enrichIssuesWithSubIssues] does not
    reject a bound of zero or less: it sends no request, logs for every root
    that the depth bound is reached, and returns every root without children
    and without error. *)
Theorem C9_nonpositive_depth_builds_no_family :
  forall time_Parse client fuel pageFuel topLevelIssues maxDepth,
    maxDepth <= 0 ->
    maxRecursionDepth = 5
    /\ enrichIssuesWithSubIssues time_Parse client fuel pageFuel topLevelIssues maxDepth
       = (flat_map
            (fun topIssue =>
               [LogTopLevelFetching (getIssueNumberFromURL (IssueURL topIssue))
                                    (Title topIssue);
                LogReachedMaxDepth maxDepth (IssueURL topIssue)])
            topLevelIssues,
          Returned (map (fun topIssue => withSubIssues topIssue []) topLevelIssues,
                    None))
    /\ requests (fst (enrichIssuesWithSubIssues time_Parse client fuel pageFuel
                                                topLevelIssues maxDepth)) = [].
Proof.
  intros time_Parse client fuel pageFuel topLevelIssues maxDepth H.
  split; [reflexivity|].
  assert (E : enrichIssuesWithSubIssues time_Parse client fuel pageFuel
                topLevelIssues maxDepth
              = (flat_map
                   (fun topIssue =>
                      [LogTopLevelFetching (getIssueNumberFromURL (IssueURL topIssue))
                                           (Title topIssue);
                       LogReachedMaxDepth maxDepth (IssueURL topIssue)])
                   topLevelIssues,
                 Returned (map (fun topIssue => withSubIssues topIssue [])
                               topLevelIssues, None))).
  { unfold enrichIssuesWithSubIssues.
    rewrite enrichLoop_depth_exhausted by exact H.
    unfold bind, ret. now rewrite app_nil_r. }
  split; [exact E|]. rewrite E. cbn [fst]. unfold requests. clear E.
  induction topLevelIssues as [|topIssue rest IH]; [reflexivity|exact IH].
Qed.

Lemma C9_witness :
  requests (fst (enrichIssuesWithSubIssues Examples.parseTime Examples.chainClient
                   5 5 [Examples.rootIssue] 0)) = [].
Proof.
  refine (proj2 (proj2 (C9_nonpositive_depth_builds_no_family
                          Examples.parseTime Examples.chainClient 5 5
                          [Examples.rootIssue] 0 _))).
  lia.
Defined.

(** * The aggregator and the validators: what they guarantee *)

(** C4.  The totals of [sumSubIssueTimeAndViolations] are a function of the
    Story-class times alone: the estimate (the actual time) of an issue enters
    them when the issue has an sbi or dev-sbi label, whatever its case, and
    the field is set; a field that is unset (negative), and every field of an
    issue that is not Story-class, is left out of the sums.  A family with a
    Story-class descendant (4 estimated, 3 actual) and an Epic-class
    descendant that carries an estimate has the totals 4 and 3. *)
Theorem C4_only_set_story_fields_are_summed :
  (forall ToLower subIssues,
      sumTotals (sumSubIssueTimeAndViolations ToLower subIssues)
      = spec_totals (map (storyTimesOf ToLower) subIssues))
  /\ (forall ToLower issue,
         hasSBI ToLower issue = false ->
         storyEstimated (storyTimesOf ToLower issue) = None
         /\ storyActual (storyTimesOf ToLower issue) = None)
  /\ (forall ToLower issue,
         ((EstimatedTime issue <? 0)%float = true ->
          storyEstimated (storyTimesOf ToLower issue) = None)
         /\ ((ActualTime issue <? 0)%float = true ->
             storyActual (storyTimesOf ToLower issue) = None))
  /\ (forall ToLower issue,
         hasSBI ToLower issue = true ->
         ((0 <=? EstimatedTime issue)%float = true ->
          storyEstimated (storyTimesOf ToLower issue) = Some (EstimatedTime issue))
         /\ ((0 <=? ActualTime issue)%float = true ->
             storyActual (storyTimesOf ToLower issue) = Some (ActualTime issue)))
  /\ hasSBI Examples.toLower Examples.story = true
  /\ hasSBI Examples.toLower Examples.epic = false
  /\ hasPBI Examples.toLower Examples.epic = true
  /\ EstimatedTime Examples.epic = 7%float
  /\ sumTotals (sumSubIssueTimeAndViolations Examples.toLower
                  (SubIssues Examples.family)) = (4%float, 3%float)
  /\ TotalEstimated (summaryOf Examples.toLower Examples.family) = 4%float
  /\ TotalActual (summaryOf Examples.toLower Examples.family) = 3%float.
Proof.
  split; [exact sumSubIssues_totals|].
  split.
  { intros ToLower issue H. destruct issue. cbn -[hasSBI PrimFloat.leb].
    now rewrite H. }
  split.
  { intros ToLower issue. destruct issue.
    cbn -[hasSBI PrimFloat.leb PrimFloat.ltb].
    split; intros H; rewrite (ltb0_not_leb0 _ H), andb_false_r; reflexivity. }
  split.
  { intros ToLower issue Hs. destruct issue.
    cbn -[hasSBI PrimFloat.leb] in *.
    split; intros H; rewrite Hs, H; reflexivity. }
  repeat split; vm_compute; reflexivity.
Qed.

Lemma C4_witness :
  hasSBI Examples.toLower Examples.epic = false
  /\ storyEstimated (storyTimesOf Examples.toLower Examples.epic) = None.
Proof.
  split; [reflexivity|].
  apply (proj1 (proj2 C4_only_set_story_fields_are_summed)
               Examples.toLower Examples.epic).
  reflexivity.
Defined.

(** C5.  For every root, [calculateIssueSummaries] reports as the number of
    sub-issues the size of the family less one: every descendant is counted
    once, whatever its labels, and the root is not counted.  (A family held
    in memory has fewer than 2^63 issues.) *)
Theorem C5_descendant_count_is_family_size_minus_one :
  forall ToLower issues,
    Forall (fun root => familySize root <= 2 ^ 63) issues ->
    map SubIssueCount (calculateIssueSummaries ToLower issues)
    = map (fun root => familySize root - 1) issues.
Proof.
  intros ToLower issues Hall. rewrite calculateIssueSummaries_map, map_map.
  apply map_ext_in. intros root Hin.
  rewrite Forall_forall in Hall. specialize (Hall root Hin).
  unfold familySize in *. rewrite issueSize_unfold in *.
  rewrite SubIssueCount_summaryOf, sumSubIssues_count; lia.
Qed.

Lemma C5_witness :
  map SubIssueCount
      (calculateIssueSummaries Examples.toLower [Examples.family; Examples.rootIssue])
  = [2; 0].
Proof.
  apply (C5_descendant_count_is_family_size_minus_one
           Examples.toLower [Examples.family; Examples.rootIssue]).
  repeat constructor; vm_compute; discriminate.
Defined.

(** C6, as the code has it.  [checkRuleViolations] records zero or one
    violation for an issue (for an issue without sub-issues its result is
    that violation or nothing), and none exactly when the issue triggers no
    clause; its reason holds the difficulty clause and the clause of the
    missing time fields whenever they are triggered, and the Size clause
    when no time field is missing.  [checkIssueRuleViolation] returns one
    string for every triggered rule (Size, the missing time fields joined in
    one string, difficulty), up to three for one issue, and no string
    exactly when no clause is triggered. *)
Theorem C6_validators_report_triggered_clauses :
  forall ToLower issue,
    (SubIssues issue = [] ->
     checkRuleViolations ToLower [issue]
     = match ownViolation ToLower issue with
       | Some v => [v]
       | None => []
       end)
    /\ (ownViolation ToLower issue = None
     <-> sizeMissing ToLower issue || estimatedMissing ToLower issue
         || actualMissing ToLower issue || difficultyMissing ToLower issue = false)
    /\ (forall v, ownViolation ToLower issue = Some v ->
                  vReason v = violationReason ToLower issue)
    /\ (difficultyMissing ToLower issue = true ->
        occursIn difficultyReason (violationReason ToLower issue))
    /\ (estimatedMissing ToLower issue = true ->
        occursIn estimatedLabel (violationReason ToLower issue))
    /\ (actualMissing ToLower issue = true ->
        occursIn actualLabel (violationReason ToLower issue))
    /\ (sizeMissing ToLower issue = true ->
        estimatedMissing ToLower issue = false ->
        actualMissing ToLower issue = false ->
        occursIn pbiReason (violationReason ToLower issue))
    /\ checkIssueRuleViolation ToLower issue
       = (if sizeMissing ToLower issue then [sizeMessage issue] else [])
           ++ (if estimatedMissing ToLower issue || actualMissing ToLower issue
               then [fieldsMessage issue] else [])
           ++ (if difficultyMissing ToLower issue
               then [difficultyMessage issue] else [])
    /\ (estimatedMissing ToLower issue = true ->
        occursIn estimatedLabel (fieldsMessage issue))
    /\ (actualMissing ToLower issue = true ->
        occursIn actualLabel (fieldsMessage issue))
    /\ (checkIssueRuleViolation ToLower issue = []
        <-> sizeMissing ToLower issue || estimatedMissing ToLower issue
            || actualMissing ToLower issue || difficultyMissing ToLower issue = false).
Proof.
  intros ToLower issue.
  split.
  { intros Hleaf. unfold checkRuleViolations. cbn [fold_left].
    destruct issue as [u t a asg c cl st sr e ac sz lb hp subs].
    cbn [SubIssues] in Hleaf. subst subs. cbn [checkRecursively SubIssues].
    destruct (ownViolation ToLower _); reflexivity. }
  split; [apply ownViolation_none|].
  split; [apply ownViolation_reason|].
  split; [apply difficultyReason_kept|].
  split.
  { intros H. eapply occursIn_trans; [|apply sbiReason_kept; now rewrite H].
    eapply occursIn_trans; [|apply joined_in_sbiReason].
    apply estimatedLabel_in_joined.
    unfold estimatedMissing in H. now apply andb_prop in H. }
  split.
  { intros H. eapply occursIn_trans;
      [|apply sbiReason_kept; rewrite H; apply orb_true_r].
    eapply occursIn_trans; [|apply joined_in_sbiReason].
    apply actualLabel_in_joined.
    unfold actualMissing in H. now apply andb_prop in H. }
  split; [apply pbiReason_kept|].
  split; [apply checkIssueRuleViolation_clauses|].
  split.
  { intros H. eapply occursIn_trans; [|apply joined_in_fieldsMessage].
    apply estimatedLabel_in_joined.
    unfold estimatedMissing in H. now apply andb_prop in H. }
  split.
  { intros H. eapply occursIn_trans; [|apply joined_in_fieldsMessage].
    apply actualLabel_in_joined.
    unfold actualMissing in H. now apply andb_prop in H. }
  rewrite checkIssueRuleViolation_clauses.
  destruct (sizeMissing ToLower issue), (estimatedMissing ToLower issue),
    (actualMissing ToLower issue), (difficultyMissing ToLower issue);
    cbn; split; congruence.
Qed.

Lemma C6_witness :
  estimatedMissing Examples.toLower Examples.storyWithoutEstimate = true
  /\ occursIn estimatedLabel
              (violationReason Examples.toLower Examples.storyWithoutEstimate).
Proof.
  split; [reflexivity|].
  apply (proj2 (C6_validators_report_triggered_clauses
                  Examples.toLower Examples.storyWithoutEstimate)).
  reflexivity.
Defined.

(** C6 fails as stated.  For a Story-class issue without estimate and without
    difficulty label [checkIssueRuleViolation] returns two violations, not
    one; and for an issue that is Epic-class and Story-class, without Size
    and without estimate, the reason of [checkRuleViolations] has lost the
    Size clause. *)
Lemma C6_counterexample :
  List.length (checkIssueRuleViolation Examples.toLower
                 Examples.storyWithoutEstimate) = 2%nat
  /\ sizeMissing Examples.toLower Examples.epicStory = true
  /\ checkRuleViolations Examples.toLower [Examples.epicStory]
     = [{| vIssueURL := Examples.urlOf "5";
           vTitle := "issue 5";
           vAssignees := ["alice"%string];
           vAuthor := "alice";
           vReason := "sbi/dev-sbiラベルが付いていますが、見積時間が設定されていません" |}]
  /\ ~ occursIn pbiReason (violationReason Examples.toLower Examples.epicStory).
Proof.
  split; [reflexivity|]. split; [reflexivity|]. split; [reflexivity|].
  intros H. apply occursIn_isInfix in H. vm_compute in H. discriminate H.
Qed.

(** C7.  For an Epic-class issue (a pbi or dev-pbi label, whatever its case)
    whose Size is unset, [checkIssueRuleViolation] reports the Size clause
    once, in front; with Size set the result is the same list without that
    clause. *)
Theorem C7_size_clause_of_epic_issue :
  forall ToLower issue size,
    hasPBI ToLower issue = true ->
    (Size issue <? 0)%float = true ->
    (size <? 0)%float = false ->
    checkIssueRuleViolation ToLower issue
    = sizeMessage issue :: checkIssueRuleViolation ToLower (withSize issue size)
    /\ ~ In (sizeMessage issue) (checkIssueRuleViolation ToLower (withSize issue size))
    /\ count_occ string_dec (checkIssueRuleViolation ToLower issue)
                 (sizeMessage issue) = 1%nat.
Proof.
  intros ToLower issue size Hpbi Hunset Hset.
  assert (Hnew : checkIssueRuleViolation ToLower (withSize issue size)
                 = (if estimatedMissing ToLower issue || actualMissing ToLower issue
                    then [fieldsMessage issue] else [])
                     ++ (if difficultyMissing ToLower issue
                         then [difficultyMessage issue] else [])).
  { rewrite checkIssueRuleViolation_clauses, <- (tail_withSize ToLower issue size).
    unfold sizeMissing. rewrite hasPBI_withSize, Hpbi. cbn [Size withSize].
    rewrite Hset. reflexivity. }
  assert (Hold : checkIssueRuleViolation ToLower issue
                 = sizeMessage issue
                     :: checkIssueRuleViolation ToLower (withSize issue size)).
  { rewrite Hnew, checkIssueRuleViolation_clauses. unfold sizeMissing.
    rewrite Hpbi, Hunset. reflexivity. }
  assert (Hnot : ~ In (sizeMessage issue)
                      (checkIssueRuleViolation ToLower (withSize issue size))).
  { rewrite Hnew. apply sizeMessage_not_in_rest. }
  split; [exact Hold|]. split; [exact Hnot|].
  rewrite Hold. rewrite count_occ_cons_eq by reflexivity.
  f_equal. now apply count_occ_not_In.
Qed.

Lemma C7_witness :
  checkIssueRuleViolation Examples.toLower Examples.epicWithoutSize
  = [sizeMessage Examples.epicWithoutSize]
  /\ checkIssueRuleViolation Examples.toLower
       (withSize Examples.epicWithoutSize 3%float) = [].
Proof.
  destruct (C7_size_clause_of_epic_issue Examples.toLower Examples.epicWithoutSize
              3%float eq_refl eq_refl eq_refl) as (H & _ & _).
  split; [exact H|]. reflexivity.
Defined.

(** C10.  A numeric field is unset exactly when it is negative.  The
    validator reports Size, the estimate or the actual time as missing when
    the value is below zero and only then; the aggregator, for a Story-class
    issue, leaves a value below zero out of the total and adds every other
    value, zero included (a field decoded from JSON is never a NaN).  A
    sub-issue without the project field gets the negative value -1, and a
    Story-class issue with both times zero has no violation and the totals
    0 and 0. *)
Theorem C10_unset_is_negative :
  forall ToLower issue,
    PrimFloat.is_nan (EstimatedTime issue) = false ->
    PrimFloat.is_nan (ActualTime issue) = false ->
    (hasPBI ToLower issue = true ->
     (In (sizeMessage issue) (checkIssueRuleViolation ToLower issue)
      <-> (Size issue <? 0)%float = true))
    /\ (In estimatedLabel (missingFields issue)
        <-> (EstimatedTime issue <? 0)%float = true)
    /\ (In actualLabel (missingFields issue)
        <-> (ActualTime issue <? 0)%float = true)
    /\ (hasSBI ToLower issue = true ->
        (In (fieldsMessage issue) (checkIssueRuleViolation ToLower issue)
         <-> (EstimatedTime issue <? 0)%float = true
             \/ (ActualTime issue <? 0)%float = true))
    /\ (hasSBI ToLower issue = true ->
        forall count totalEstimated totalActual violations sub,
          sumTotals (sumStep ToLower (count, totalEstimated, totalActual, violations)
                             issue sub)
          = (((if (EstimatedTime issue <? 0)%float then totalEstimated
               else totalEstimated + EstimatedTime issue) + fst (sumTotals sub))%float,
             ((if (ActualTime issue <? 0)%float then totalActual
               else totalActual + ActualTime issue) + snd (sumTotals sub))%float))
    /\ customFields [] = ((-1)%float, (-1)%float, (-1)%float)
    /\ ((-1) <? 0)%float = true
    /\ (0 <? 0)%float = false
    /\ checkIssueRuleViolation Examples.toLower Examples.zeroStory = []
    /\ sumTotals (sumSubIssueTimeAndViolations Examples.toLower [Examples.zeroStory])
       = (0%float, 0%float).
Proof.
  intros ToLower issue HnanE HnanA.
  split.
  { intros Hpbi. rewrite checkIssueRuleViolation_clauses. unfold sizeMissing.
    rewrite Hpbi. cbn [andb]. split.
    - destruct (Size issue <? 0)%float; [reflexivity|]. cbn [app]. intros Hin.
      now apply sizeMessage_not_in_rest in Hin.
    - intros ->. now left. }
  split.
  { rewrite missingFields_cases.
    destruct (EstimatedTime issue <? 0)%float, (ActualTime issue <? 0)%float;
      cbn; split; intros H; try reflexivity; try discriminate; auto;
      repeat (destruct H as [H|H]; try discriminate H; try contradiction). }
  split.
  { rewrite missingFields_cases.
    destruct (EstimatedTime issue <? 0)%float, (ActualTime issue <? 0)%float;
      cbn; split; intros H; try reflexivity; try discriminate; auto;
      repeat (destruct H as [H|H]; try discriminate H; try contradiction). }
  split.
  { intros Hsbi. rewrite checkIssueRuleViolation_clauses.
    unfold estimatedMissing, actualMissing. rewrite Hsbi. cbn [andb]. split.
    - intros Hin.
      destruct (EstimatedTime issue <? 0)%float; [now left|].
      destruct (ActualTime issue <? 0)%float; [now right|]. exfalso.
      cbn [orb app] in Hin. apply in_app_or in Hin as [Hin|Hin].
      + destruct (sizeMissing ToLower issue); [|destruct Hin].
        destruct Hin as [Hin|[]]. now apply sizeMessage_not_fieldsMessage in Hin.
      + destruct (difficultyMissing ToLower issue); [|destruct Hin].
        destruct Hin as [Hin|[]]. revert Hin.
        unfold difficultyMessage, fieldsMessage. intros Hin.
        do 2 apply append_inv_head in Hin. discriminate Hin.
    - intros H. apply in_or_app. right. apply in_or_app. left.
      destruct H as [-> | ->]; [now left|]. rewrite orb_true_r. now left. }
  split.
  { intros Hsbi count totalEstimated totalActual violations sub.
    rewrite sumTotals_step. destruct issue. cbn -[PrimFloat.leb PrimFloat.ltb hasSBI] in *.
    rewrite Hsbi. cbn [andb].
    rewrite (leb0_of_not_ltb0 _ HnanE), (leb0_of_not_ltb0 _ HnanA).
    destruct (_ <? 0)%float, (_ <? 0)%float; reflexivity. }
  repeat split; vm_compute; reflexivity.
Qed.

Lemma C10_witness :
  In estimatedLabel (missingFields Examples.storyWithoutEstimate)
  <-> (EstimatedTime Examples.storyWithoutEstimate <? 0)%float = true.
Proof.
  apply (C10_unset_is_negative Examples.toLower Examples.storyWithoutEstimate);
    reflexivity.
Defined.

(** * More of the program: facts *)

(** ** The violation report and the summaries *)

Section ReportFacts.
Variable ToLower : string -> string.

Lemma issueNodes_unfold issue :
  issueNodes issue = issue :: forestNodes (SubIssues issue).
Proof. destruct issue; reflexivity. Qed.

Lemma checkRecursively_nodes issue :
  forall violations,
    checkRecursively ToLower issue violations
    = violations ++ flat_map (reported ToLower) (issueNodes issue).
Proof.
  induction issue as [issue IH] using issue_ind'. intros violations.
  rewrite issueNodes_unfold. cbn [flat_map].
  destruct issue as [u t a asg c cl st sr e ac sz lb hp subs].
  cbn [checkRecursively SubIssues] in *.
  set (own := mkIssue u t a asg c cl st sr e ac sz lb hp subs).
  assert (Hown : match ownViolation ToLower own with
                 | Some v => violations ++ [v]
                 | None => violations
                 end = violations ++ reported ToLower own).
  { unfold reported. destruct (ownViolation ToLower own);
      [reflexivity|now rewrite app_nil_r]. }
  rewrite Hown, app_assoc. generalize (violations ++ reported ToLower own).
  clear Hown. induction IH as [|sub rest Hsub _ IHrest]; intros acc.
  - cbn. now rewrite app_nil_r.
  - rewrite IHrest, Hsub. unfold forestNodes. cbn [fold_right].
    rewrite flat_map_app, app_assoc. reflexivity.
Qed.

Lemma checkRuleViolations_loop issues :
  forall violations,
    fold_left (fun violations issue => checkRecursively ToLower issue violations)
              issues violations
    = violations ++ flat_map (reported ToLower) (forestNodes issues).
Proof.
  induction issues as [|issue rest IH]; intros violations; cbn [fold_left].
  - cbn. now rewrite app_nil_r.
  - rewrite IH, checkRecursively_nodes. unfold forestNodes. cbn [fold_right].
    rewrite flat_map_app, app_assoc. reflexivity.
Qed.

Lemma forestNodes_app l1 l2 : forestNodes (l1 ++ l2) = forestNodes l1 ++ forestNodes l2.
Proof.
  unfold forestNodes. induction l1 as [|issue rest IH]; cbn; [reflexivity|].
  now rewrite IH, app_assoc.
Qed.

Lemma sumViolations_step acc issue sub :
  sumViolations (sumStep ToLower acc issue sub)
  = (sumViolations acc ++ checkIssueRuleViolation ToLower issue) ++ sumViolations sub.
Proof. destruct acc as [[[c e] a] v], sub as [[[c' e'] a'] v']. reflexivity. Qed.

Lemma sumLoop_violations recur l :
  Forall (fun issue => sumViolations (recur issue)
                       = flat_map (checkIssueRuleViolation ToLower)
                                  (forestNodes (SubIssues issue))) l ->
  forall acc,
    sumViolations (sumLoop ToLower recur l acc)
    = sumViolations acc ++ flat_map (checkIssueRuleViolation ToLower) (forestNodes l).
Proof.
  induction 1 as [|issue rest Hissue _ IH]; intros acc; cbn [sumLoop].
  - cbn. now rewrite app_nil_r.
  - rewrite IH, sumViolations_step, Hissue. unfold forestNodes at 3.
    cbn [fold_right]. rewrite issueNodes_unfold. cbn [app flat_map].
    rewrite flat_map_app, <- !app_assoc. reflexivity.
Qed.

Lemma sumSubIssues_violations l :
  sumViolations (sumSubIssueTimeAndViolations ToLower l)
  = flat_map (checkIssueRuleViolation ToLower) (forestNodes l).
Proof.
  assert (Hall : forall issue,
             sumViolations (sumOfSubIssues ToLower issue)
             = flat_map (checkIssueRuleViolation ToLower)
                        (forestNodes (SubIssues issue))).
  { induction issue as [issue IH] using issue_ind'.
    rewrite sumOfSubIssues_unfold. unfold sumSubIssueTimeAndViolations.
    now rewrite (sumLoop_violations _ _ IH). }
  unfold sumSubIssueTimeAndViolations. rewrite sumLoop_violations; [reflexivity|].
  apply Forall_forall. intros issue _. apply Hall.
Qed.

Lemma validators_agree issue :
  ownViolation ToLower issue = None <-> checkIssueRuleViolation ToLower issue = [].
Proof.
  rewrite ownViolation_none, checkIssueRuleViolation_clauses.
  destruct (sizeMissing ToLower issue), (estimatedMissing ToLower issue),
    (actualMissing ToLower issue), (difficultyMissing ToLower issue);
    cbn; split; congruence.
Qed.

Lemma flat_map_nil {A B : Type} (f : A -> list B) (l : list A) :
  flat_map f l = [] <-> Forall (fun x => f x = []) l.
Proof.
  induction l as [|x l IH]; cbn.
  - split; [constructor|reflexivity].
  - split.
    + intros H. apply app_eq_nil in H as [Hx Hl]. constructor; [exact Hx|now apply IH].
    + intros H. inversion H; subst. rewrite H2. now apply IH.
Qed.
End ReportFacts.

(** ** URLs *)

Section SplitFacts.
Variable sep : ascii.

Local Open Scope string_scope.

Lemma Split_nonempty s : GoStrings.Split s sep <> []%list.
Proof.
  destruct s as [|c s]; cbn; [discriminate|].
  destruct (Ascii.eqb c sep); [discriminate|].
  destruct (GoStrings.Split s sep); discriminate.
Qed.

Lemma Split_without s :
  containsByte s sep = false -> GoStrings.Split s sep = [s]%list.
Proof.
  induction s as [|c s IH]; cbn; [reflexivity|].
  destruct (Ascii.eqb c sep); cbn; [discriminate|].
  intros H. now rewrite (IH H).
Qed.

Lemma Split_segment a b :
  containsByte a sep = false ->
  GoStrings.Split (a ++ String sep b) sep = (a :: GoStrings.Split b sep)%list.
Proof.
  induction a as [|c a IH]; cbn.
  - intros _. now rewrite Ascii.eqb_refl.
  - destruct (Ascii.eqb c sep); cbn; [discriminate|].
    intros H. now rewrite (IH H).
Qed.

Lemma Split_length s :
  List.length (GoStrings.Split s sep) = S (countByte s sep).
Proof.
  induction s as [|c s IH]; cbn; [reflexivity|].
  destruct (Ascii.eqb c sep); cbn; [now rewrite IH|].
  destruct (GoStrings.Split s sep) as [|part parts] eqn:E; cbn in *; [discriminate|].
  exact IH.
Qed.

Lemma Split_parts s :
  Forall (fun part => containsByte part sep = false) (GoStrings.Split s sep).
Proof.
  induction s as [|c s IH]; cbn; [repeat constructor|].
  destruct (Ascii.eqb c sep) eqn:Ec; [constructor; [reflexivity|exact IH]|].
  destruct (GoStrings.Split s sep) as [|part parts]; [repeat constructor; cbn; now rewrite Ec|].
  inversion IH; subst. constructor; [cbn; now rewrite Ec|assumption].
Qed.

Lemma Join_Split s : GoStrings.Join (GoStrings.Split s sep) (String sep "") = s.
Proof.
  unfold GoStrings.Join. induction s as [|c s IH]; cbn [GoStrings.Split]; [reflexivity|].
  pose proof (Split_nonempty s) as Hne.
  destruct (GoStrings.Split s sep) as [|part parts]; [contradiction|].
  destruct (Ascii.eqb_spec c sep) as [->|Hc].
  - change (String.concat (String sep "") ("" :: part :: parts))
      with (String sep (String.concat (String sep "") (part :: parts))).
    now rewrite IH.
  - destruct parts as [|part' parts].
    + cbn in *. now rewrite IH.
    + change (String.concat (String sep "") (String c part :: part' :: parts))
        with (String c (String.concat (String sep "") (part :: part' :: parts))).
      now rewrite IH.
Qed.

Lemma concat_last (parts : list string) :
  parts <> []%list ->
  exists before,
    String.concat (String sep "") parts = before ++ last parts ""
    /\ (before = "" \/ exists q, before = q ++ String sep "").
Proof.
  induction parts as [|x parts IH]; [contradiction|]. intros _.
  destruct parts as [|y parts].
  - exists "". split; [reflexivity|now left].
  - destruct (IH ltac:(discriminate)) as (before & Hc & Hb).
    exists (x ++ String sep "" ++ before). split.
    + change (String.concat (String sep "") (x :: y :: parts))
        with (x ++ String sep "" ++ String.concat (String sep "") (y :: parts)).
      rewrite Hc. change (last (x :: y :: parts) "") with (last (y :: parts) "").
      now rewrite !append_assoc.
    + right. destruct Hb as [->|(q & ->)].
      * exists x. now rewrite append_nil_r.
      * exists (x ++ String sep "" ++ q). now rewrite !append_assoc.
Qed.

(** The string ends with the last part, after a separator when there are
    several parts. *)
Lemma Split_last s :
  exists before,
    s = before ++ last (GoStrings.Split s sep) ""
    /\ (before = "" \/ exists q, before = q ++ String sep "").
Proof.
  destruct (concat_last (GoStrings.Split s sep) (Split_nonempty s))
    as (before & Hc & Hb).
  exists before. split; [|exact Hb].
  rewrite <- Hc. symmetry. apply Join_Split.
Qed.

Lemma last_in {A : Type} (l : list A) (d : A) : l <> []%list -> In (last l d) l.
Proof.
  induction l as [|x l IH]; [contradiction|]. intros _.
  destruct l as [|y l]; [now left|]. right. apply IH. discriminate.
Qed.

Lemma Split_last_without s :
  containsByte (last (GoStrings.Split s sep) "") sep = false.
Proof.
  pose proof (Split_parts s) as Hp. rewrite Forall_forall in Hp.
  apply Hp, last_in, Split_nonempty.
Qed.
End SplitFacts.

Local Open Scope string_scope.

Lemma isPrefix_inv p s : isPrefix p s = true -> exists rest, s = p ++ rest.
Proof.
  revert s. induction p as [|a p IH]; intros s H.
  - now exists s.
  - destruct s as [|b s]; [discriminate|]. cbn in H.
    apply andb_prop in H as [Hab Hp]. apply Ascii.eqb_eq in Hab as ->.
    destruct (IH s Hp) as (rest & ->). now exists rest.
Qed.

Lemma getIssueNumberFromURL_last url :
  getIssueNumberFromURL url = last (GoStrings.Split url "/") "".
Proof.
  unfold getIssueNumberFromURL. rewrite Split_length. reflexivity.
Qed.

(** X1.  [getIssueNumberFromURL] returns the part of the URL after its last
    slash (the whole URL when it has none): the URL ends with the result,
    the result has no slash, and what is in front is empty or ends with a
    slash.  The answer "unknown" is never given for a URL that does not end
    with it. *)
Theorem X1_issue_number_is_the_last_segment :
  forall url,
    containsByte (getIssueNumberFromURL url) "/" = false
    /\ exists before,
        url = before ++ getIssueNumberFromURL url
        /\ (before = "" \/ exists q, before = q ++ "/").
Proof.
  intros url. rewrite getIssueNumberFromURL_last.
  split; [apply Split_last_without|apply Split_last].
Qed.

(** X2.  [issueKey], the URL parsing of [fetchSubIssuesRecursively]: a URL
    with fewer than six slashes is rejected as an invalid format, and only
    such a URL; on a URL of seven parts the owner is the fourth part, the
    repository the fifth, and the issue number is [strconv.Atoi] of the
    seventh, an invalid number being the other error.  On such a URL the
    number [getIssueNumberFromURL] shows in the logs is the part that is
    parsed. *)
Theorem X2_issue_key_of_a_url :
  (forall url,
      issueKey url = Err (InvalidURLFormat url) <-> (countByte url "/" < 6)%nat)
  /\ (forall scheme empty host owner repo kind number,
         containsByte scheme "/" = false ->
         containsByte empty "/" = false ->
         containsByte host "/" = false ->
         containsByte owner "/" = false ->
         containsByte repo "/" = false ->
         containsByte kind "/" = false ->
         containsByte number "/" = false ->
         let url := scheme ++ "/" ++ empty ++ "/" ++ host ++ "/" ++ owner ++ "/"
                      ++ repo ++ "/" ++ kind ++ "/" ++ number in
         issueKey url
         = match GoStrings.Atoi number with
           | Some issueNumber => Ok (owner, repo, issueNumber)
           | None => Err (InvalidIssueNumber url)
           end
         /\ getIssueNumberFromURL url = number).
Proof.
  split.
  - intros url. unfold issueKey. rewrite Split_length.
    destruct (Z.ltb_spec (Z.of_nat (S (countByte url "/"))) 7) as [Hlt|Hge].
    + split; [lia|reflexivity].
    + split; [|lia]. destruct (GoStrings.Atoi _); discriminate.
  - intros scheme empty host owner repo kind number H0 H1 H2 H3 H4 H5 H6 url.
    assert (Hsplit : GoStrings.Split url "/"
                     = [scheme; empty; host; owner; repo; kind; number]%list).
    { subst url. cbn [append].
      rewrite !Split_segment by assumption. now rewrite Split_without. }
    split.
    + unfold issueKey. rewrite Hsplit. reflexivity.
    + rewrite getIssueNumberFromURL_last, Hsplit. reflexivity.
Qed.

Lemma X2_witness :
  issueKey "https://github.com/o/r/issues/12" = Ok ("o", "r", 12%Z)
  /\ getIssueNumberFromURL "https://github.com/o/r/issues/12" = "12".
Proof.
  exact (proj2 X2_issue_key_of_a_url "https:" "" "github.com" "o" "r" "issues" "12"
               eq_refl eq_refl eq_refl eq_refl eq_refl eq_refl eq_refl).
Defined.

Lemma isRepoInAllowedList_short issueURL allowedRepos :
  nth_error (GoStrings.Split issueURL "/") 3 = None ->
  allowedRepos <> []%list ->
  isRepoInAllowedList issueURL allowedRepos = None.
Proof.
  intros Hshort Hne. destruct allowedRepos as [|repo rest]; [contradiction|].
  cbn [isRepoInAllowedList]. now rewrite Hshort.
Qed.

Lemma isRepoInAllowedList_true issueURL allowedRepos owner :
  nth_error (GoStrings.Split issueURL "/") 3 = Some owner ->
  isRepoInAllowedList issueURL allowedRepos
  = Some (existsb (fun repo => isPrefix ("https://github.com/" ++ owner ++ "/" ++ repo)
                                        issueURL)
                  allowedRepos).
Proof.
  intros Howner. induction allowedRepos as [|repo rest IH]; [reflexivity|].
  cbn [isRepoInAllowedList existsb]. rewrite Howner.
  destruct (isPrefix _ issueURL); [reflexivity|exact IH].
Qed.

(** X3.  [isRepoInAllowedList] accepts a URL exactly when the URL starts with
    https://github.com/, an owner, a slash and the name of an allowed
    repository: whatever follows the name is not looked at, so a repository
    whose name begins with an allowed name is accepted as well.  With no
    allowed repository every URL is refused; with one or more, a URL with
    fewer than three slashes panics. *)
Theorem X3_allowed_repositories_match_by_prefix :
  (forall issueURL, isRepoInAllowedList issueURL []%list = Some false)
  /\ (forall issueURL allowedRepos,
         allowedRepos <> []%list ->
         (isRepoInAllowedList issueURL allowedRepos = None
          <-> (countByte issueURL "/" < 3)%nat))
  /\ (forall issueURL allowedRepos,
         isRepoInAllowedList issueURL allowedRepos = Some true
         <-> exists owner repo rest,
             containsByte owner "/" = false
             /\ In repo allowedRepos
             /\ issueURL = "https://github.com/" ++ owner ++ "/" ++ repo ++ rest).
Proof.
  split; [reflexivity|]. split.
  - intros issueURL allowedRepos Hne.
    destruct (nth_error (GoStrings.Split issueURL "/") 3) as [owner|] eqn:E.
    + rewrite (isRepoInAllowedList_true _ _ _ E).
      assert (3 < List.length (GoStrings.Split issueURL "/"))%nat
        by (apply nth_error_Some; congruence).
      rewrite Split_length in H. split; [discriminate|lia].
    + rewrite isRepoInAllowedList_short by assumption.
      apply nth_error_None in E. rewrite Split_length in E. split; [lia|reflexivity].
  - intros issueURL allowedRepos. split.
    + intros Htrue.
      destruct (nth_error (GoStrings.Split issueURL "/") 3) as [owner|] eqn:E.
      * rewrite (isRepoInAllowedList_true _ _ _ E) in Htrue.
        match type of Htrue with
        | Some ?b = Some true => assert (Hex : b = true) by congruence
        end.
        destruct (proj1 (existsb_exists _ _) Hex) as (repo & Hin & Hp).
        cbv beta in Hp. apply isPrefix_inv in Hp as (rest & Hp).
        exists owner, repo, rest. split; [|split; [exact Hin|]].
        -- pose proof (Split_parts "/" issueURL) as Hparts.
           rewrite Forall_forall in Hparts. apply Hparts.
           eapply nth_error_In. exact E.
        -- rewrite Hp. now rewrite !append_assoc.
      * destruct allowedRepos as [|repo rest]; [discriminate|].
        cbn [isRepoInAllowedList] in Htrue. rewrite E in Htrue. discriminate.
    + intros (owner & repo & rest & Howner & Hin & ->).
      assert (E : nth_error (GoStrings.Split
                               ("https://github.com/" ++ owner ++ "/" ++ repo ++ rest)
                               "/") 3 = Some owner).
      { change ("https://github.com/" ++ owner ++ "/" ++ repo ++ rest)
          with ("https:" ++ String "/" ("" ++ String "/"
                  ("github.com" ++ String "/" (owner ++ String "/" (repo ++ rest))))).
        rewrite !Split_segment by (assumption || reflexivity). reflexivity. }
      rewrite (isRepoInAllowedList_true _ _ _ E). f_equal.
      apply existsb_exists. exists repo. split; [exact Hin|].
      rewrite <- !append_assoc. apply isPrefix_append.
Qed.

Lemma X3_witness :
  isRepoInAllowedList "https://github.com/o/app-legacy/issues/1" ["app"]%list
  = Some true.
Proof.
  apply (proj2 (proj2 X3_allowed_repositories_match_by_prefix)).
  exists "o", "app", "-legacy/issues/1". repeat split. now left.
Defined.

Local Open Scope list_scope.

(** ** The report and the summaries: what they list *)

Lemma checkRuleViolations_nodes ToLower issues :
  checkRuleViolations ToLower issues
  = flat_map (reported ToLower) (forestNodes issues).
Proof. unfold checkRuleViolations. now rewrite checkRuleViolations_loop. Qed.

(** X4.  [checkRuleViolations] lists the violations of the issues of all
    families in the order parent, children, next sibling, at most one for an
    issue; the report of two lists of families is the report of the first
    followed by the report of the second. *)
Theorem X4_report_follows_the_families :
  forall ToLower issues,
    checkRuleViolations ToLower issues
    = flat_map (reported ToLower) (forestNodes issues)
    /\ (List.length (checkRuleViolations ToLower issues)
        <= List.length (forestNodes issues))%nat
    /\ forall more,
        checkRuleViolations ToLower (issues ++ more)
        = checkRuleViolations ToLower issues ++ checkRuleViolations ToLower more.
Proof.
  intros ToLower issues.
  split; [apply checkRuleViolations_nodes|]. split.
  - rewrite checkRuleViolations_nodes.
    induction (forestNodes issues) as [|issue rest IH]; cbn; [lia|].
    rewrite length_app. unfold reported at 1.
    destruct (ownViolation ToLower issue); cbn; lia.
  - intros more. now rewrite !checkRuleViolations_nodes, forestNodes_app, flat_map_app.
Qed.

(** X5.  Every violation of the report names an issue of the families and
    at least one responsible person: the assignees of the issue, or its
    author when it has no assignee. *)
Theorem X5_every_violation_has_a_responsible :
  forall ToLower issues v,
    In v (checkRuleViolations ToLower issues) ->
    exists issue,
      In issue (forestNodes issues)
      /\ vIssueURL v = IssueURL issue
      /\ vAuthor v = Author issue
      /\ vAssignees v = match Assignees issue with
                        | [] => [Author issue]
                        | _ => Assignees issue
                        end
      /\ vAssignees v <> [].
Proof.
  intros ToLower issues v Hin. rewrite checkRuleViolations_nodes in Hin.
  apply in_flat_map in Hin as (issue & Hnode & Hv).
  exists issue. split; [exact Hnode|].
  unfold reported, ownViolation in Hv.
  destruct (negb _); [|destruct Hv].
  destruct Hv as [<-|[]]. cbn.
  destruct (Assignees issue); cbn; repeat split; discriminate.
Qed.

Lemma X5_witness :
  exists issue,
    In issue (forestNodes [Examples.epicStory])
    /\ vAssignees
         {| vIssueURL := Examples.urlOf "5"; vTitle := "issue 5";
            vAssignees := ["alice"%string]; vAuthor := "alice";
            vReason := "sbi/dev-sbiラベルが付いていますが、見積時間が設定されていません" |}
       <> [].
Proof.
  destruct (X5_every_violation_has_a_responsible
              Examples.toLower [Examples.epicStory]
              {| vIssueURL := Examples.urlOf "5"; vTitle := "issue 5";
                 vAssignees := ["alice"%string]; vAuthor := "alice";
                 vReason := "sbi/dev-sbiラベルが付いていますが、見積時間が設定されていません" |}
              (or_introl eq_refl)) as (issue & Hin & _ & _ & _ & Hne).
  exists issue. split; assumption.
Defined.

(** X6.  The summary of a root lists the messages of [checkIssueRuleViolation]
    for the root and then for every descendant, the parent before its
    children.  The two validators agree on which issues violate a rule, so
    the summary flags a family exactly when the report of that family has a
    violation. *)
Theorem X6_summary_flags_what_the_report_lists :
  forall ToLower root,
    Violations (summaryOf ToLower root)
    = flat_map (checkIssueRuleViolation ToLower) (issueNodes root)
    /\ (forall issue,
           ownViolation ToLower issue = None
           <-> checkIssueRuleViolation ToLower issue = [])
    /\ (HasRuleViolation (summaryOf ToLower root) = true
        <-> checkRuleViolations ToLower [root] <> []).
Proof.
  intros ToLower root.
  assert (Hv : Violations (summaryOf ToLower root)
               = flat_map (checkIssueRuleViolation ToLower) (issueNodes root)).
  { unfold summaryOf.
    pose proof (sumSubIssues_violations ToLower (SubIssues root)) as Hsub.
    destruct (sumSubIssueTimeAndViolations ToLower (SubIssues root))
      as [[[c e] a] v]. cbn [sumViolations] in Hsub. cbn [Violations].
    rewrite issueNodes_unfold. cbn [flat_map]. now rewrite Hsub. }
  split; [exact Hv|]. split; [apply validators_agree|].
  assert (Hflag : HasRuleViolation (summaryOf ToLower root) = true
                  <-> Violations (summaryOf ToLower root) <> []).
  { unfold summaryOf.
    destruct (sumSubIssueTimeAndViolations ToLower (SubIssues root))
      as [[[c e] a] v]. cbn [HasRuleViolation Violations].
    destruct (checkIssueRuleViolation ToLower root ++ v); cbn; split;
      congruence. }
  rewrite Hflag, Hv, checkRuleViolations_nodes.
  unfold forestNodes. cbn [fold_right]. rewrite app_nil_r.
  assert (Hsame : flat_map (checkIssueRuleViolation ToLower) (issueNodes root) = []
                  <-> flat_map (reported ToLower) (issueNodes root) = []).
  { rewrite !flat_map_nil. split; intros Hall; (eapply Forall_impl; [|exact Hall]);
      intros issue Hissue; cbv beta in *.
    - unfold reported. apply validators_agree in Hissue. now rewrite Hissue.
    - apply validators_agree. unfold reported in Hissue.
      destruct (ownViolation ToLower issue); [discriminate|reflexivity]. }
  split; intros H Hnil; apply H; now apply Hsame.
Qed.

(** ** The filters *)

Section FilterFacts.
Variable Before : GoTime -> GoTime -> bool.
Variable After : GoTime -> GoTime -> bool.

Lemma filterLoop_some keep issues :
  forall filtered result,
    filterLoop keep issues filtered = Some result ->
    result = filtered ++ filter (keptBy keep) issues
    /\ Forall (fun issue => keep issue <> None) issues.
Proof.
  induction issues as [|issue rest IH]; intros filtered result H; cbn in H.
  - injection H as <-. split; [now rewrite app_nil_r|constructor].
  - unfold keptBy. cbn [filter].
    destruct (keep issue) as [[|]|] eqn:E; [| |discriminate];
      apply IH in H as [-> Hall]; (split; [|constructor; [congruence|exact Hall]]).
    + fold (keptBy keep). now rewrite <- app_assoc.
    + reflexivity.
Qed.

Lemma filterLoop_total keep issues :
  Forall (fun issue => keep issue <> None) issues ->
  forall filtered,
    filterLoop keep issues filtered = Some (filtered ++ filter (keptBy keep) issues).
Proof.
  induction 1 as [|issue rest Hissue _ IH]; intros filtered; cbn.
  - now rewrite app_nil_r.
  - unfold keptBy at 1. destruct (keep issue) as [[|]|]; [| |contradiction];
      rewrite IH; [now rewrite <- app_assoc|reflexivity].
Qed.

Lemma filter_idem {A : Type} (f : A -> bool) (l : list A) :
  filter f (filter f l) = filter f l.
Proof.
  induction l as [|x l IH]; cbn; [reflexivity|].
  destruct (f x) eqn:E; cbn; [now rewrite E, IH|exact IH].
Qed.

Lemma keptTopLevel_true allowedRepos issue :
  keptTopLevel allowedRepos issue = Some true ->
  isRepoInAllowedList (IssueURL issue) allowedRepos = Some true
  /\ HasParent issue = false
  /\ completed issue.
Proof.
  unfold keptTopLevel, completed.
  destruct (isRepoInAllowedList _ _) as [[|]|]; cbn; try discriminate.
  destruct (HasParent issue); [discriminate|].
  destruct (String.eqb_spec (State issue) "CLOSED"); [|discriminate].
  destruct (String.eqb_spec (StateReason issue) "COMPLETED"); [|discriminate].
  auto.
Qed.

(** X7.  What [filterIssues] returns is the input without the issues it
    skips, in the input's order; every issue it keeps has no parent, is
    CLOSED with the reason COMPLETED, belongs to an allowed repository and,
    when a date range is given and the issue has a closing time, was closed
    neither before the start nor after the end of the range.  An issue
    without closing time passes every date range.  Filtering the result
    again changes nothing. *)
Theorem X7_filterIssues_keeps_completed_roots :
  forall issues options filtered,
    filterIssues Before After issues options = Some filtered ->
    filtered = filter (keptBy (keptByFilterIssues Before After options)) issues
    /\ Forall
         (fun issue =>
            HasParent issue = false
            /\ completed issue
            /\ isRepoInAllowedList (IssueURL issue) (AllowedRepositories options)
               = Some true
            /\ forall range closedAt,
                ClosedDateRange options = Some range ->
                ClosedAt issue = Some closedAt ->
                Before closedAt (StartDate range) = false
                /\ After closedAt (EndDate range) = false)
         filtered
    /\ (forall issue,
           In issue issues ->
           keptTopLevel (AllowedRepositories options) issue = Some true ->
           ClosedAt issue = None ->
           In issue filtered)
    /\ filterIssues Before After filtered options = Some filtered.
Proof.
  intros issues options filtered H. unfold filterIssues in *.
  apply filterLoop_some in H as [-> Hall]. cbn [app].
  split; [reflexivity|]. split.
  - apply Forall_forall. intros issue Hin. apply filter_In in Hin as [_ Hkept].
    unfold keptBy, keptByFilterIssues in Hkept.
    destruct (keptTopLevel _ issue) as [[|]|] eqn:E; try discriminate.
    apply keptTopLevel_true in E as (Hrepo & Hparent & Hdone).
    repeat split; try assumption; try apply Hdone;
      destruct (ClosedDateRange options) as [range'|]; try discriminate;
      destruct (ClosedAt issue) as [closedAt'|]; try discriminate;
      injection H as <-; injection H0 as <-;
      destruct (Before closedAt' _), (After closedAt' _); cbn in Hkept;
      congruence.
  - split.
    + intros issue Hin Htop Hnil. apply filter_In. split; [exact Hin|].
      unfold keptBy, keptByFilterIssues. rewrite Htop, Hnil.
      destruct (ClosedDateRange options); reflexivity.
    + rewrite filterLoop_total.
      * cbn [app]. now rewrite filter_idem.
      * rewrite Forall_forall in *. intros issue Hin.
        apply filter_In in Hin as [Hin _]. now apply Hall.
Qed.
End FilterFacts.

Lemma X7_witness :
  filterIssues MoreExamples.before MoreExamples.after
               [MoreExamples.closedAt_ Examples.family (Some (MoreExamples.at_ 150)) false;
                MoreExamples.closedAt_ Examples.rootIssue None false]
               MoreExamples.options
  = Some [MoreExamples.closedAt_ Examples.family (Some (MoreExamples.at_ 150)) false;
          MoreExamples.closedAt_ Examples.rootIssue None false].
Proof.
  exact (proj2 (proj2 (proj2
    (X7_filterIssues_keeps_completed_roots
       MoreExamples.before MoreExamples.after MoreExamples.projectIssues
       MoreExamples.options
       [MoreExamples.closedAt_ Examples.family (Some (MoreExamples.at_ 150)) false;
        MoreExamples.closedAt_ Examples.rootIssue None false]
       eq_refl)))).
Defined.

Section FilterComposition.
Variable Before : GoTime -> GoTime -> bool.
Variable After : GoTime -> GoTime -> bool.

Lemma filterIssues_topLevel issues options filtered :
  filterIssues Before After issues options = Some filtered ->
  Forall (fun issue => keptTopLevel (AllowedRepositories options) issue = Some true)
         filtered
  /\ Forall (fun issue => keptTopLevel (AllowedRepositories options) issue <> None)
            issues.
Proof.
  unfold filterIssues. intros H. apply filterLoop_some in H as [-> Hall].
  cbn [app]. split.
  - apply Forall_forall. intros issue Hin. apply filter_In in Hin as [_ Hkept].
    unfold keptBy, keptByFilterIssues in Hkept.
    destruct (keptTopLevel _ issue) as [[|]|]; try discriminate. reflexivity.
  - eapply Forall_impl; [|exact Hall]. intros issue Hissue.
    unfold keptByFilterIssues in Hissue.
    destruct (keptTopLevel _ issue) as [[|]|]; congruence.
Qed.

Lemma filter_filter {A : Type} (f g : A -> bool) (l : list A) :
  filter (fun x => f x && g x) l = filter g (filter f l).
Proof.
  induction l as [|x l IH]; cbn; [reflexivity|].
  destruct (f x); cbn; [destruct (g x); now rewrite IH|exact IH].
Qed.

(** X8.  On the issues [filterIssues] returned, [filterIssuesByCreationDate]
    with the same options only tests the creation date: it returns the
    issues that were not created before the start date, in their order, and
    it does not panic. *)
Theorem X8_creation_filter_after_filterIssues :
  forall issues options filtered startDate,
    filterIssues Before After issues options = Some filtered ->
    filterIssuesByCreationDate Before filtered startDate options
    = Some (filter (fun issue => negb (Before (CreatedAt issue) startDate)) filtered).
Proof.
  intros issues options filtered startDate H.
  apply filterIssues_topLevel in H as [Htop _].
  unfold filterIssuesByCreationDate. rewrite filterLoop_total.
  - cbn [app]. f_equal. apply filter_ext_in. intros issue Hin.
    rewrite Forall_forall in Htop. specialize (Htop issue Hin).
    unfold keptBy, keptByCreationDate. rewrite Htop.
    destruct (Before (CreatedAt issue) startDate); reflexivity.
  - eapply Forall_impl; [|exact Htop]. intros issue Hissue.
    unfold keptByCreationDate. rewrite Hissue. discriminate.
Qed.

(** X9.  Every issue [filterIssuesByWeeklyPeriod] returns has a closing time
    that is not before the start of the period and is before its end.  With
    options without date range it returns the issues [filterIssues] returns
    that were closed in the period, and it panics only when [filterIssues]
    does. *)
Theorem X9_weekly_filter_selects_the_period :
  forall issues period options,
    (forall weekly,
        filterIssuesByWeeklyPeriod Before issues period options = Some weekly ->
        Forall (fun issue =>
                  exists closedAt,
                    ClosedAt issue = Some closedAt
                    /\ Before closedAt (Weekly.StartDate period) = false
                    /\ Before closedAt (Weekly.EndDate period) = true)
               weekly)
    /\ (forall filtered,
           ClosedDateRange options = None ->
           filterIssues Before After issues options = Some filtered ->
           filterIssuesByWeeklyPeriod Before issues period options
           = Some (filter
                     (fun issue =>
                        match ClosedAt issue with
                        | Some closedAt =>
                            negb (Before closedAt (Weekly.StartDate period))
                            && Before closedAt (Weekly.EndDate period)
                        | None => false
                        end)
                     filtered)).
Proof.
  intros issues period options. split.
  - intros weekly H. unfold filterIssuesByWeeklyPeriod in H.
    apply filterLoop_some in H as [-> _]. cbn [app].
    apply Forall_forall. intros issue Hin. apply filter_In in Hin as [_ Hkept].
    unfold keptBy, keptByWeeklyPeriod in Hkept.
    destruct (keptTopLevel _ issue) as [[|]|]; try discriminate.
    destruct (ClosedAt issue) as [closedAt|]; [|discriminate].
    exists closedAt.
    destruct (Before closedAt (Weekly.StartDate period)),
      (Before closedAt (Weekly.EndDate period)); cbn in Hkept;
      try discriminate. auto.
  - intros filtered Hrange H.
    pose proof (filterIssues_topLevel _ _ _ H) as [_ Hsome].
    unfold filterIssues in H. apply filterLoop_some in H as [-> _]. cbn [app].
    unfold filterIssuesByWeeklyPeriod. rewrite filterLoop_total.
    + cbn [app]. f_equal. rewrite <- filter_filter. apply filter_ext.
      intros issue. unfold keptBy, keptByWeeklyPeriod, keptByFilterIssues.
      rewrite Hrange.
      destruct (keptTopLevel _ issue) as [[|]|]; try reflexivity.
      destruct (ClosedAt issue) as [closedAt|]; [|reflexivity].
      destruct (Before closedAt (Weekly.StartDate period)),
        (Before closedAt (Weekly.EndDate period)); reflexivity.
    + eapply Forall_impl; [|exact Hsome]. intros issue Hissue.
      cbv beta in Hissue. unfold keptByWeeklyPeriod.
      destruct (keptTopLevel _ issue) as [[|]|];
        first [discriminate | now destruct Hissue].
Qed.

End FilterComposition.

Lemma X8_witness :
  filterIssuesByCreationDate MoreExamples.before
    [MoreExamples.closedAt_ Examples.family (Some (MoreExamples.at_ 150)) false;
     MoreExamples.closedAt_ Examples.rootIssue None false]
    (MoreExamples.at_ 1) MoreExamples.options
  = Some [].
Proof.
  exact (X8_creation_filter_after_filterIssues
           MoreExamples.before MoreExamples.after MoreExamples.projectIssues
           MoreExamples.options
           [MoreExamples.closedAt_ Examples.family (Some (MoreExamples.at_ 150)) false;
            MoreExamples.closedAt_ Examples.rootIssue None false]
           (MoreExamples.at_ 1) eq_refl).
Defined.

Lemma X9_witness :
  filterIssuesByWeeklyPeriod MoreExamples.before MoreExamples.projectIssues
                             MoreExamples.week MoreExamples.optionsWithoutRange
  = Some [MoreExamples.closedAt_ Examples.family (Some (MoreExamples.at_ 150)) false].
Proof.
  exact (proj2 (X9_weekly_filter_selects_the_period
                  MoreExamples.before MoreExamples.after MoreExamples.projectIssues
                  MoreExamples.week MoreExamples.optionsWithoutRange)
               _ eq_refl eq_refl).
Defined.

(** ** The families [main] builds *)

Section FamilyFacts.
Variable time_Parse : string -> option GoTime.
Variable client : GraphQLClient.

Lemma fetch_hasParent pageFuel maxDepth :
  forall fuel issueURL depth,
    post (fetchSubIssuesRecursively time_Parse client fuel pageFuel issueURL
                                    depth maxDepth)
         (onOk (Forall (issueAll (fun issue => HasParent issue = true)))).
Proof.
  induction fuel as [|fuel IH]; intros issueURL depth;
    cbn [fetchSubIssuesRecursively];
    (destruct (depth >=? maxDepth)%Z; [cbn; constructor|]);
    (destruct (issueKey issueURL) as [[[owner repo] issueNumber]|err];
     [|exact I]);
    [exact I|].
  apply pageLoop_post
    with (Rsub := Forall (issueAll (fun issue => HasParent issue = true)));
    [| |intros url; apply IH|constructor].
  - intros subIssue createdAt closedAt _. apply issueAll_unfold.
    unfold subIssueInfo. destruct (customFields _) as [[e a] s].
    cbn. split; [reflexivity|constructor].
  - intros subIssue createdAt closedAt childIssues _ Hch. apply issueAll_unfold.
    unfold subIssueInfo. destruct (customFields _) as [[e a] s].
    cbn. split; [reflexivity|exact Hch].
Qed.

Lemma enrichLoop_families (Q : list IssueTimeInfo -> Prop) fuel pageFuel maxDepth :
  Q [] ->
  (forall issueURL,
      post (fetchSubIssuesRecursively time_Parse client fuel pageFuel issueURL
                                      0 maxDepth) (onOk Q)) ->
  forall topLevelIssues,
    post (enrichLoop time_Parse client fuel pageFuel topLevelIssues maxDepth)
         (Forall2 (fun topIssue enriched =>
                     exists subIssues,
                       enriched = withSubIssues topIssue subIssues /\ Q subIssues)
                  topLevelIssues).
Proof.
  intros Hnil Hfetch.
  induction topLevelIssues as [|topIssue rest IH]; cbn [enrichLoop].
  - apply post_ret. constructor.
  - apply post_bind with (Q1 := fun _ => True); [apply post_true|]. intros _ _.
    eapply post_bind; [apply Hfetch|]. intros r Hr.
    apply post_bind with (Q1 := Q).
    + destruct r as [subIssues|err]; [now apply post_ret|].
      apply post_bind with (Q1 := fun _ => True); [apply post_true|].
      intros _ _. now apply post_ret.
    + intros subIssues Hsub. eapply post_bind; [exact IH|].
      intros enriched Henriched. apply post_ret.
      constructor; [now exists subIssues|exact Henriched].
Qed.
End FamilyFacts.

(** X10.  The families built from the issues [filterIssues] returned: every
    issue of every family is CLOSED with the reason COMPLETED, the root of a
    family has no parent, and every issue below a root is marked as having
    one. *)
Theorem X10_families_of_filtered_roots_are_completed :
  forall Before After time_Parse client fuel pageFuel issues options roots maxDepth,
    filterIssues Before After issues options = Some roots ->
    post (enrichIssuesWithSubIssues time_Parse client fuel pageFuel roots maxDepth)
         (fun '(enrichedIssues, _) =>
            forestAll completed enrichedIssues
            /\ Forall (fun family =>
                         HasParent family = false
                         /\ forestAll (fun issue => HasParent issue = true)
                                      (SubIssues family))
                      enrichedIssues).
Proof.
  intros Before After time_Parse client fuel pageFuel issues options roots maxDepth H.
  apply filterIssues_topLevel in H as [Htop _].
  unfold enrichIssuesWithSubIssues.
  eapply post_bind.
  - apply enrichLoop_families
      with (Q := fun subs => Forall (issueAll completed) subs
                             /\ Forall (issueAll (fun issue => HasParent issue = true))
                                       subs).
    + split; constructor.
    + intros issueURL.
      pose proof (fetch_completed time_Parse client pageFuel maxDepth fuel issueURL 0)
        as Hc.
      pose proof (fetch_hasParent time_Parse client pageFuel maxDepth fuel issueURL 0)
        as Hp.
      unfold post in *. destruct (snd _) as [[l|err]| |]; cbn in *; auto.
  - intros enriched Hfam. apply post_ret.
    rewrite forestAll_Forall.
    induction Hfam as [|topIssue family rest enriched (subs & -> & Hc & Hp) _ IH].
    + split; constructor.
    + inversion Htop as [|? ? Hroot Hrest]; subst.
      apply keptTopLevel_true in Hroot as (_ & Hparent & Hdone).
      destruct (IH Hrest) as [IHc IHp].
      split; constructor; try assumption.
      * apply issueAll_unfold. split; [exact Hdone|exact Hc].
      * split; [exact Hparent|]. apply forestAll_Forall. exact Hp.
Qed.

Lemma X10_witness :
  post (enrichIssuesWithSubIssues Examples.parseTime Examples.chainClient 5 5
          [MoreExamples.closedAt_ Examples.family (Some (MoreExamples.at_ 150)) false;
           MoreExamples.closedAt_ Examples.rootIssue None false] 2)
       (fun '(enrichedIssues, _) =>
          forestAll completed enrichedIssues
          /\ Forall (fun family =>
                       HasParent family = false
                       /\ forestAll (fun issue => HasParent issue = true)
                                    (SubIssues family))
                    enrichedIssues).
Proof.
  exact (X10_families_of_filtered_roots_are_completed
           MoreExamples.before MoreExamples.after Examples.parseTime
           Examples.chainClient 5 5 MoreExamples.projectIssues MoreExamples.options
           _ 2 eq_refl).
Defined.

(** ** The children of an issue *)

Section ChildrenFacts.
Variable time_Parse : string -> option GoTime.
Variable client : GraphQLClient.

Lemma processEdge_urls recur depth subIssue :
  post (processEdge time_Parse recur depth subIssue)
       (fun o => match o with
                 | Some info =>
                     keepable time_Parse subIssue = true
                     /\ IssueURL info = Node.URL subIssue
                 | None => keepable time_Parse subIssue = false
                 end).
Proof.
  unfold processEdge, keepable, isCompleted. cbv zeta.
  destruct (String.eqb (Node.State subIssue) "CLOSED" && _)%bool; cbn [negb andb];
    [|apply post_bind with (Q1 := fun _ => True); [apply post_true|];
      intros _ _; now apply post_ret].
  destruct (time_Parse (Node.CreatedAt subIssue)) as [createdAtUTC|];
    [|apply post_bind with (Q1 := fun _ => True); [apply post_true|];
      intros _ _; now apply post_ret].
  destruct (parseClosedAt time_Parse (Node.ClosedAt subIssue)) as [closedAt|];
    [|apply post_bind with (Q1 := fun _ => True); [apply post_true|];
      intros _ _; now apply post_ret].
  apply post_bind with (Q1 := fun _ => True); [apply post_true|]. intros _ _.
  apply post_bind with (Q1 := fun _ => True); [apply post_true|].
  intros [childIssues|err] _.
  - apply post_ret. split; [reflexivity|].
    rewrite withSubIssues_URL. apply subIssueInfo_URL.
  - apply post_bind with (Q1 := fun _ => True); [apply post_true|]. intros _ _.
    apply post_ret. split; [reflexivity|apply subIssueInfo_URL].
Qed.

Lemma processEdges_urls recur depth edges :
  forall acc,
    post (processEdges time_Parse recur depth edges acc)
         (fun l => map IssueURL l
                   = map IssueURL acc
                       ++ map Node.URL (filter (keepable time_Parse) edges)).
Proof.
  induction edges as [|subIssue rest IH]; intros acc; cbn [processEdges filter].
  - apply post_ret. cbn. now rewrite app_nil_r.
  - eapply post_bind; [apply processEdge_urls|]. intros [info|] Ho.
    + destruct Ho as [-> Hurl]. eapply post_weaken; [apply IH|].
      intros l ->. rewrite map_app. cbn [map]. rewrite Hurl, <- app_assoc.
      reflexivity.
    + rewrite Ho. apply IH.
Qed.

Lemma pageLoop_urls recur depth owner repo issueNumber :
  forall pageFuel cursor acc,
    post (pageLoop time_Parse client recur pageFuel owner repo issueNumber
                   depth cursor acc)
         (onOk (fun l =>
                  map IssueURL l
                  = map IssueURL acc
                      ++ map Node.URL
                           (filter (keepable time_Parse)
                                   (drainEdges client owner repo issueNumber
                                               pageFuel cursor)))).
Proof.
  induction pageFuel as [|n IH]; intros cursor acc; [exact I|].
  cbn [pageLoop drainEdges].
  apply post_bind with (Q1 := fun _ => True); [apply post_true|]. intros _ _.
  destruct (client owner repo issueNumber _) as [message|response];
    [apply post_ret; exact I|].
  eapply post_bind; [apply processEdges_urls|]. intros all Hall.
  destruct (negb (HasNextPage response)).
  - apply post_ret. cbn [onOk]. now rewrite app_nil_r.
  - destruct (EndCursor response) as [next|]; [|exact I].
    eapply post_weaken; [apply IH|].
    intros [l|err]; cbn [onOk]; [|auto]. intros ->.
    now rewrite Hall, filter_app, map_app, app_assoc.
Qed.
End ChildrenFacts.

(** X11.  Below the depth bound, the children [fetchSubIssuesRecursively]
    returns for an issue are the edges of its pages that are completed and
    whose times parse, one child for an edge, in the order of the pages:
    neither the depth nor a failed fetch further down adds, drops or
    reorders a child. *)
Theorem X11_children_are_the_kept_edges_in_order :
  forall time_Parse client fuel pageFuel issueURL depth maxDepth owner repo issueNumber,
    issueKey issueURL = Ok (owner, repo, issueNumber) ->
    depth < maxDepth ->
    post (fetchSubIssuesRecursively time_Parse client fuel pageFuel issueURL
                                    depth maxDepth)
         (onOk (fun children =>
                  map IssueURL children
                  = map Node.URL
                        (filter (keepable time_Parse)
                                (drainEdges client owner repo issueNumber
                                            pageFuel EmptyString)))).
Proof.
  intros time_Parse client fuel pageFuel issueURL depth maxDepth owner repo
         issueNumber Hkey Hlt.
  destruct fuel as [|fuel]; cbn [fetchSubIssuesRecursively];
    (destruct (Z.geb_spec depth maxDepth); [lia|]); rewrite Hkey; [exact I|].
  apply (pageLoop_urls time_Parse client _ depth owner repo issueNumber pageFuel
                       EmptyString []).
Qed.

Lemma X11_witness :
  post (fetchSubIssuesRecursively Examples.parseTime Examples.prunedClient 5 5
                                  (Examples.urlOf "1") 0 5)
       (onOk (fun children => map IssueURL children = [Examples.urlOf "3"])).
Proof.
  exact (X11_children_are_the_kept_edges_in_order
           Examples.parseTime Examples.prunedClient 5 5 (Examples.urlOf "1") 0 5
           "o"%string "r"%string 1 eq_refl eq_refl).
Defined.

(** ** The custom fields *)

Lemma customFields_inner fieldValues :
  forall estimatedTime actualTime size,
    fold_left
      (fun '(estimatedTime, actualTime, size) fieldValue =>
         if String.eqb (Node.TypeName fieldValue) "ProjectV2ItemFieldNumberValue"
         then
           let fieldName := Node.FieldName fieldValue in
           match Node.FieldNumber fieldValue with
           | Some number =>
               if String.eqb fieldName estimatedLabel
               then (number, actualTime, size)
               else if String.eqb fieldName actualLabel
               then (estimatedTime, number, size)
               else if String.eqb fieldName "Size"
               then (estimatedTime, actualTime, number)
               else (estimatedTime, actualTime, size)
           | None => (estimatedTime, actualTime, size)
           end
         else (estimatedTime, actualTime, size))
      fieldValues (estimatedTime, actualTime, size)
    = (fold_left (fun value fieldValue =>
                    match numberFor estimatedLabel fieldValue with
                    | Some number => number
                    | None => value
                    end) fieldValues estimatedTime,
       fold_left (fun value fieldValue =>
                    match numberFor actualLabel fieldValue with
                    | Some number => number
                    | None => value
                    end) fieldValues actualTime,
       fold_left (fun value fieldValue =>
                    match numberFor "Size" fieldValue with
                    | Some number => number
                    | None => value
                    end) fieldValues size).
Proof.
  induction fieldValues as [|fieldValue rest IH]; intros e a s; [reflexivity|].
  cbn [fold_left]. rewrite <- IH. f_equal. unfold numberFor.
  destruct (String.eqb (Node.TypeName fieldValue) "ProjectV2ItemFieldNumberValue");
    cbn [andb]; [|reflexivity].
  cbv zeta.
  destruct (Node.FieldNumber fieldValue) as [number|].
  - destruct (String.eqb_spec (Node.FieldName fieldValue) estimatedLabel) as [->|He];
      [reflexivity|].
    destruct (String.eqb_spec (Node.FieldName fieldValue) actualLabel) as [->|Ha];
      [reflexivity|].
    destruct (String.eqb (Node.FieldName fieldValue) "Size"); reflexivity.
  - destruct (String.eqb _ estimatedLabel), (String.eqb _ actualLabel),
      (String.eqb _ "Size"); reflexivity.
Qed.

(** X12.  The three custom fields of a sub-issue are read independently of
    each other and of the project item a value stands in: each is the last
    number that a number-typed value with a number gives to the field, in
    the order of the values, and -1 (unset) when no value gives one. *)
Theorem X12_custom_fields_take_the_last_number :
  (forall projectItems,
      customFields projectItems
      = (lastNumberFor estimatedLabel (List.concat projectItems),
         lastNumberFor actualLabel (List.concat projectItems),
         lastNumberFor "Size" (List.concat projectItems)))
  /\ (forall name fieldValues,
         Forall (fun fieldValue => numberFor name fieldValue = None) fieldValues ->
         lastNumberFor name fieldValues = (-1)%float)
  /\ (forall name fieldValues fieldValue number,
         numberFor name fieldValue = Some number ->
         lastNumberFor name (fieldValues ++ [fieldValue]) = number).
Proof.
  split.
  - intros projectItems. unfold customFields, lastNumberFor.
    generalize (-1)%float at 1 4. generalize (-1)%float at 1 3.
    generalize (-1)%float.
    induction projectItems as [|projectItem rest IH]; intros s a e; [reflexivity|].
    cbn [fold_left List.concat]. rewrite customFields_inner, IH, !fold_left_app.
    reflexivity.
  - split.
    + intros name fieldValues Hnone. unfold lastNumberFor.
      generalize (-1)%float. induction Hnone as [|fieldValue rest Hfv _ IH];
        intros value; [reflexivity|].
      cbn [fold_left]. rewrite Hfv. apply IH.
    + intros name fieldValues fieldValue number Hnumber. unfold lastNumberFor.
      rewrite fold_left_app. cbn [fold_left]. now rewrite Hnumber.
Qed.

Lemma X12_witness :
  lastNumberFor estimatedLabel
                ([MoreExamples.numberValue estimatedLabel 2%float;
                  MoreExamples.numberValue actualLabel 9%float]
                   ++ [MoreExamples.numberValue estimatedLabel 4%float])
  = 4%float.
Proof.
  exact (proj2 (proj2 X12_custom_fields_take_the_last_number)
               estimatedLabel
               [MoreExamples.numberValue estimatedLabel 2%float;
                MoreExamples.numberValue actualLabel 9%float]
               (MoreExamples.numberValue estimatedLabel 4%float) 4%float eq_refl).
Defined.

(** ** The statistics of the hierarchy *)

Lemma mapGet_mapSet m k v k' :
  mapGet (mapSet m k v) k' = if (k =? k')%Z then v else mapGet m k'.
Proof.
  induction m as [|[k0 v0] m IH]; cbn.
  - reflexivity.
  - destruct (Z.eqb_spec k0 k) as [->|Hk]; cbn.
    + destruct (Z.eqb_spec k k'); reflexivity.
    + destruct (Z.eqb_spec k0 k') as [->|Hk'].
      * destruct (Z.eqb_spec k k'); [congruence|reflexivity].
      * exact IH.
Qed.

Lemma mapGet_mapIncr m k k' :
  mapGet (mapIncr m k) k'
  = if (k =? k')%Z then wrapInt (mapGet m k + 1) else mapGet m k'.
Proof. unfold mapIncr. apply mapGet_mapSet. Qed.

Lemma issueLevelCount_zero issue : issueLevelCount issue 0 = 1.
Proof. destruct issue; reflexivity. Qed.

Lemma issueLevelCount_succ issue d :
  issueLevelCount issue (S d) = levelCount (SubIssues issue) d.
Proof. destruct issue; reflexivity. Qed.

Lemma levelCount_cons issue rest d :
  levelCount (issue :: rest) d = issueLevelCount issue d + levelCount rest d.
Proof. reflexivity. Qed.

Lemma levelCount_bounds l :
  forall d, 0 <= levelCount l d <= forestSize l.
Proof.
  assert (Hissue : forall issue d, 0 <= issueLevelCount issue d <= issueSize issue).
  { induction issue as [issue IH] using issue_ind'. intros [|d].
    - rewrite issueLevelCount_zero. pose proof (issueSize_pos issue). lia.
    - rewrite issueLevelCount_succ, issueSize_unfold.
      enough (0 <= levelCount (SubIssues issue) d <= forestSize (SubIssues issue))
        by lia.
      induction IH as [|sub rest Hsub _ IHrest]; [cbn; lia|].
      rewrite levelCount_cons, forestSize_cons. specialize (Hsub d). lia. }
  induction l as [|issue rest IH]; intros d; [cbn; lia|].
  rewrite levelCount_cons, forestSize_cons.
  specialize (Hissue issue d). specialize (IH d). lia.
Qed.

Lemma levelAt_cons issue rest depth k :
  levelAt (issue :: rest) depth k
  = (if (depth =? k)%Z then 1 else 0)
    + levelAt (SubIssues issue) (depth + 1) k + levelAt rest depth k.
Proof.
  unfold levelAt. rewrite levelCount_cons.
  destruct (Z.ltb_spec k depth), (Z.ltb_spec k (depth + 1)),
    (Z.eqb_spec depth k); try lia.
  - subst. replace (k - k) with 0 by lia. cbn [Z.to_nat].
    rewrite issueLevelCount_zero. lia.
  - replace (Z.to_nat (k - depth)) with (S (Z.to_nat (k - (depth + 1)))) by lia.
    rewrite issueLevelCount_succ. lia.
Qed.

Lemma levelAt_nil depth k : levelAt [] depth k = 0.
Proof. unfold levelAt. destruct (k <? depth)%Z; reflexivity. Qed.

Lemma levelAt_bounds l depth k : 0 <= levelAt l depth k <= forestSize l.
Proof.
  unfold levelAt. destruct (k <? depth)%Z.
  - pose proof (forestSize_nonneg l). lia.
  - apply levelCount_bounds.
Qed.

Lemma length_zero_nil {A : Type} (l : list A) :
  (0 <? Z.of_nat (List.length l))%Z = false -> l = [].
Proof. destruct l; [reflexivity|]. cbn [List.length]. intros H. apply Z.ltb_ge in H. lia. Qed.

Lemma countLoop_counts recur l :
  Forall (countsBelow recur) l ->
  forall depth count m,
    0 <= depth -> depth + forestSize l < 2 ^ 63 ->
    0 <= count -> count + forestSize l < 2 ^ 63 ->
    (forall k, 0 <= mapGet m k /\ mapGet m k + forestSize l < 2 ^ 63) ->
    fst (countLoop recur l depth count m) = count + forestSize l
    /\ forall k, mapGet (snd (countLoop recur l depth count m)) k
                 = mapGet m k + levelAt l depth k.
Proof.
  induction 1 as [|issue rest Hissue _ IH]; intros depth count m Hd Hdb Hc Hcb Hm.
  - cbn. split; [lia|]. intros k. rewrite levelAt_nil. lia.
  - cbn [countLoop]. rewrite forestSize_cons, issueSize_unfold in *.
    pose proof (forestSize_nonneg (SubIssues issue)) as Hs.
    pose proof (forestSize_nonneg rest) as Hr.
    rewrite (wrapInt_small (count + 1)) by (unfold is_int; lia).
    assert (Hm1 : forall k, mapGet (mapIncr m depth) k
                            = mapGet m k + if (depth =? k)%Z then 1 else 0).
    { intros k. rewrite mapGet_mapIncr. destruct (Z.eqb_spec depth k) as [->|]; [|lia].
      destruct (Hm k). rewrite wrapInt_small by (unfold is_int; lia). lia. }
    destruct (0 <? Z.of_nat (List.length (SubIssues issue)))%Z eqn:Elen.
    + destruct (Hissue (wrapInt (depth + 1)) (mapIncr m depth)) as [Hbelow Hmap].
      * rewrite wrapInt_small by (unfold is_int; lia). lia.
      * rewrite wrapInt_small by (unfold is_int; lia). lia.
      * intros k. rewrite Hm1. destruct (Hm k).
        destruct (depth =? k)%Z; lia.
      * destruct (recur issue (wrapInt (depth + 1)) (mapIncr m depth))
          as [below m2]. cbn [fst snd] in *. subst below.
        rewrite (wrapInt_small (count + 1 + _)) by (unfold is_int; lia).
        rewrite (wrapInt_small (depth + 1)) in Hmap by (unfold is_int; lia).
        destruct (IH depth (count + 1 + forestSize (SubIssues issue)) m2)
          as [Hcount Hmap']; try lia.
        { intros k. rewrite Hmap, Hm1. destruct (Hm k).
          pose proof (levelAt_bounds (SubIssues issue) (depth + 1) k).
          destruct (depth =? k)%Z; lia. }
        split; [lia|]. intros k.
        rewrite Hmap', Hmap, Hm1, levelAt_cons. lia.
    + apply length_zero_nil in Elen. rewrite Elen in *.
      change (forestSize []) with 0 in *.
      destruct (IH depth (count + 1) (mapIncr m depth)) as [Hcount Hmap'];
        try lia.
      { intros k. rewrite Hm1. destruct (Hm k). destruct (depth =? k)%Z; lia. }
      split; [lia|]. intros k.
      rewrite Hmap', Hm1, levelAt_cons, Elen, levelAt_nil. lia.
Qed.

Lemma countBelow_counts issue : countsBelow countBelow issue.
Proof.
  induction issue as [issue IH] using issue_ind'.
  intros depth m Hd Hdb Hm.
  assert (E : countBelow issue depth m
              = countLoop countBelow (SubIssues issue) depth 0 m)
    by (destruct issue; reflexivity).
  rewrite E.
  pose proof (forestSize_nonneg (SubIssues issue)).
  destruct (countLoop_counts countBelow _ IH depth 0 m) as [Hc Hk]; try lia;
    [exact Hm|].
  split; [lia|exact Hk].
Qed.

Lemma statsLoop_counts l :
  forall total m,
    0 <= total -> total + forestSize l < 2 ^ 63 ->
    (forall k, 0 <= mapGet m k /\ mapGet m k + forestSize l < 2 ^ 63) ->
    let result := fold_left countRoot l (total, m) in
    fst result = total + forestSize l - Z.of_nat (List.length l)
    /\ forall k, mapGet (snd result) k = mapGet m k + levelAt l 0 k.
Proof.
  induction l as [|issue rest IH]; intros total m Ht Htb Hm.
  - cbn. split; [lia|]. intros k. rewrite levelAt_nil. lia.
  - cbn [fold_left]. cbv zeta. unfold countRoot at 2 4. cbv zeta.
    rewrite forestSize_cons, issueSize_unfold in *.
    pose proof (forestSize_nonneg (SubIssues issue)) as Hs.
    pose proof (forestSize_nonneg rest) as Hr.
    assert (Hm1 : forall k, mapGet (mapIncr m 0) k
                            = mapGet m k + if (0 =? k)%Z then 1 else 0).
    { intros k. rewrite mapGet_mapIncr. destruct (Z.eqb_spec 0 k) as [<-|]; [|lia].
      destruct (Hm 0). rewrite wrapInt_small by (unfold is_int; lia). lia. }
    destruct (0 <? Z.of_nat (List.length (SubIssues issue)))%Z eqn:Elen.
    + destruct (countBelow_counts issue 1 (mapIncr m 0)) as [Hbelow Hmap];
        [lia|lia| |].
      { intros k. rewrite Hm1. destruct (Hm k). destruct (0 =? k)%Z; lia. }
      destruct (countBelow issue 1 (mapIncr m 0)) as [below m2].
      cbn [fst snd] in *. subst below.
      rewrite wrapInt_small by (unfold is_int; lia).
      destruct (IH (total + forestSize (SubIssues issue)) m2) as [Hcount Hmap'];
        try lia.
      { intros k. rewrite Hmap, Hm1. destruct (Hm k).
        pose proof (levelAt_bounds (SubIssues issue) 1 k).
        destruct (0 =? k)%Z; lia. }
      split.
      * rewrite Hcount. cbn [List.length]. lia.
      * intros k. rewrite Hmap', Hmap, Hm1, levelAt_cons.
        change (0 + 1) with 1. lia.
    + apply length_zero_nil in Elen. rewrite Elen in *.
      change (forestSize []) with 0 in *.
      destruct (IH total (mapIncr m 0)) as [Hcount Hmap']; try lia.
      { intros k. rewrite Hm1. destruct (Hm k). destruct (0 =? k)%Z; lia. }
      split.
      * rewrite Hcount. cbn [List.length]. lia.
      * intros k. rewrite Hmap', Hm1, levelAt_cons, Elen, levelAt_nil. lia.
Qed.

Lemma levelCount_zero l : levelCount l 0 = Z.of_nat (List.length l).
Proof.
  induction l as [|issue rest IH]; [reflexivity|].
  rewrite levelCount_cons, issueLevelCount_zero, IH. cbn [List.length]. lia.
Qed.

(** X13. As long as the families hold fewer than 2^63 issues,
    [calculateIssueHierarchyStats] returns the number of the roots, the number
    of all the issues below the roots (the size of the forest less the roots),
    and a map that gives for every depth the number of issues at that depth:
    the roots at the depth 0, and nothing at a negative depth. *)
Theorem X13_hierarchy_stats_count_every_level (issues : list IssueTimeInfo) :
  forestSize issues < 2 ^ 63 ->
  let '(totalIssues, totalSubIssues, depthCounts) :=
    calculateIssueHierarchyStats issues in
  totalIssues = Z.of_nat (List.length issues)
  /\ totalSubIssues = forestSize issues - totalIssues
  /\ (forall d : nat, mapGet depthCounts (Z.of_nat d) = levelCount issues d)
  /\ mapGet depthCounts 0 = totalIssues
  /\ (forall k, k < 0 -> mapGet depthCounts k = 0).
Proof.
  intros Hsize. unfold calculateIssueHierarchyStats. cbv zeta.
  pose proof (forestSize_nonneg issues) as Hnonneg.
  destruct (statsLoop_counts issues 0 []) as [Htotal Hmap]; [lia|lia| |].
  { intros k. cbn [mapGet]. lia. }
  cbv zeta in Htotal, Hmap. revert Htotal Hmap.
  destruct (fold_left countRoot issues (0, [] : DepthCounts))
    as [totalSubIssues depthCounts].
  intros Htotal Hmap.
  cbn [fst snd mapGet] in *.
  assert (Hlevel : forall d : nat,
             mapGet depthCounts (Z.of_nat d) = levelCount issues d).
  { intros d. rewrite Hmap. unfold levelAt.
    destruct (Z.ltb_spec (Z.of_nat d) 0); [lia|].
    rewrite Z.sub_0_r, Nat2Z.id. lia. }
  repeat split.
  - lia.
  - exact Hlevel.
  - change 0 with (Z.of_nat 0) at 1. rewrite Hlevel. apply levelCount_zero.
  - intros k Hk. rewrite Hmap. unfold levelAt.
    destruct (Z.ltb_spec k 0); lia.
Qed.

Lemma X13_witness :
  forestSize [Examples.family; Examples.rootIssue] < 2 ^ 63
  /\ let '(totalIssues, totalSubIssues, depthCounts) :=
       calculateIssueHierarchyStats [Examples.family; Examples.rootIssue] in
     totalIssues = Z.of_nat (List.length [Examples.family; Examples.rootIssue])
     /\ totalSubIssues
        = forestSize [Examples.family; Examples.rootIssue] - totalIssues
     /\ (forall d : nat,
            mapGet depthCounts (Z.of_nat d)
            = levelCount [Examples.family; Examples.rootIssue] d)
     /\ mapGet depthCounts 0 = totalIssues
     /\ (forall k, k < 0 -> mapGet depthCounts k = 0).
Proof.
  split; [vm_compute; reflexivity|].
  apply (X13_hierarchy_stats_count_every_level
           [Examples.family; Examples.rootIssue]).
  vm_compute. reflexivity.
Defined.

(** ** The weekday of the weekly period *)

(** X14. A WEEKDAY that [main] accepts is a number from 0 to 7, and 7 is read
    as 0 (Sunday). For the weekday that results and the weekday of yesterday,
    [calculateWeeklyPeriod] goes back between 0 and 6 days, and the day it
    reaches has the weekday asked for: the period starts at the last such
    day that is not after yesterday. *)
Theorem X14_weekly_period_starts_on_the_weekday
    (weekdayStr : string) (weekday yesterdayWeekday : Z) :
  weekdayOfEnv weekdayStr = Some weekday ->
  0 <= yesterdayWeekday <= 6 ->
  (exists wd, GoStrings.Atoi weekdayStr = Some wd /\ 0 <= wd <= 7
              /\ weekday = wd mod 7)
  /\ 0 <= weekday <= 6
  /\ 0 <= daysSinceTargetWeekday yesterdayWeekday weekday <= 6
  /\ (yesterdayWeekday - daysSinceTargetWeekday yesterdayWeekday weekday) mod 7
     = weekday
  /\ (daysSinceTargetWeekday yesterdayWeekday weekday = 0
      <-> yesterdayWeekday = weekday).
Proof.
  unfold weekdayOfEnv. intros Henv Hy.
  destruct (GoStrings.Atoi weekdayStr) as [wd|]; [|discriminate].
  destruct (Z.ltb_spec wd 0); [discriminate|].
  destruct (Z.gtb_spec wd 7); [discriminate|].
  cbn [orb] in Henv.
  assert (Hweekday : 0 <= weekday <= 6 /\ weekday = wd mod 7).
  { destruct (Z.eqb_spec wd 7) as [Hseven|Hother];
      injection Henv as Henv; subst weekday.
    - subst wd. split; [lia|reflexivity].
    - split; [lia|]. rewrite Z.mod_small; lia. }
  destruct Hweekday as [Hrange Hmod].
  split; [exists wd; repeat split; try lia; reflexivity|].
  split; [exact Hrange|].
  unfold daysSinceTargetWeekday.
  rewrite (wrapInt_small (yesterdayWeekday - weekday)) by (unfold is_int; lia).
  rewrite wrapInt_small by (unfold is_int; lia).
  rewrite Z.rem_mod_nonneg by lia.
  assert (Hcases : yesterdayWeekday - weekday + 7
                   = 7 * 1 + (yesterdayWeekday - weekday)
                   \/ yesterdayWeekday - weekday + 7
                      = 7 * 0 + (yesterdayWeekday - weekday + 7)) by lia.
  destruct (Z_lt_le_dec yesterdayWeekday weekday) as [Hlt|Hge].
  - rewrite (Z.mod_small (yesterdayWeekday - weekday + 7)) by lia.
    repeat split; try lia.
    replace (yesterdayWeekday - (yesterdayWeekday - weekday + 7))
      with (weekday + (-1) * 7) by lia.
    rewrite Z.mod_add by lia. apply Z.mod_small. lia.
  - replace (yesterdayWeekday - weekday + 7)
      with (yesterdayWeekday - weekday + 1 * 7) by lia.
    rewrite Z.mod_add by lia.
    rewrite (Z.mod_small (yesterdayWeekday - weekday)) by lia.
    repeat split; try lia.
    replace (yesterdayWeekday - (yesterdayWeekday - weekday)) with weekday by lia.
    apply Z.mod_small. lia.
Qed.

Lemma X14_witness :
  weekdayOfEnv "7" = Some 0
  /\ 0 <= 3 <= 6
  /\ ((exists wd, GoStrings.Atoi "7" = Some wd /\ 0 <= wd <= 7 /\ 0 = wd mod 7)
      /\ 0 <= 0 <= 6
      /\ 0 <= daysSinceTargetWeekday 3 0 <= 6
      /\ (3 - daysSinceTargetWeekday 3 0) mod 7 = 0
      /\ (daysSinceTargetWeekday 3 0 = 0 <-> 3 = 0)).
Proof.
  split; [reflexivity|]. split; [lia|].
  apply (X14_weekly_period_starts_on_the_weekday "7" 0 3); [reflexivity|lia].
Defined.
